(** * Meal-planning client: derivations, filters and store workflows

    A shallow embedding of the logic of the pages
    [src/pages/Recipes.tsx], [src/pages/Inventory.tsx], [src/pages/Menu.tsx],
    [src/pages/ShoppingList.tsx] and [src/pages/Calendar.tsx] (the Calendar
    page is the file [unnamed/part_001]), followed by
    the theorems that settle the properties stated about them.

    Conventions of the embedding.
    - A JavaScript value that the code guards against being [undefined]
      or [null] ([x?.f], [!x]) is an [option]; every other field has the type
      its TypeScript interface declares.
    - Strings are [string]s of 8-bit characters, each one the UTF-16 code
      unit of that number (the Latin-1 range); [toLowerCase] and the white
      space of [parseInt] are the built-ins restricted to that range.
    - A Firestore request either rejects or resolves.  Which one happens is
      read from an oracle indexed by the number of requests issued so far, so
      that every pattern of failures is covered.
    - Numbers that the code divides are IEEE 754 doubles ([float]).  The
      minutes that [parseInt] reads and the totals added from them are
      doubles that hold integers ([JS.Number]): every addition rounds to
      the nearest double.  Timestamps are integers ([Z]).
    - A thrown exception is the [Throw] result of the [Async] monad;
      [try ... catch] is [tryCatch]. *)

From Stdlib Require Import ZArith List String Ascii Bool Lia.
From Stdlib Require Import Sorted Permutation OrderedTypeEx Floats.
Import ListNotations.
Local Open Scope string_scope.

(* ================================================================== *)
(** * JavaScript built-ins used by the pages *)
(* ================================================================== *)

Module JS.

(** ** Strings *)

Definition isUpperAscii (c : ascii) : bool :=
  let n := nat_of_ascii c in (65 <=? n)%nat && (n <=? 90)%nat.

(** The upper-case letters U+00C0 to U+00DE; U+00D7 is the multiplication
    sign. *)
Definition isUpperLatin1 (c : ascii) : bool :=
  let n := nat_of_ascii c in
  (192 <=? n)%nat && (n <=? 222)%nat && negb (n =? 215)%nat.

Definition lowerChar (c : ascii) : ascii :=
  if isUpperAscii c || isUpperLatin1 c
  then ascii_of_nat (nat_of_ascii c + 32) else c.

(** [s.toLowerCase()] *)
Fixpoint toLowerCase (s : string) : string :=
  match s with
  | EmptyString => EmptyString
  | String c s' => String (lowerChar c) (toLowerCase s')
  end.

(** [s.startsWith(p)] *)
Fixpoint startsWith (s p : string) {struct p} : bool :=
  match p with
  | EmptyString => true
  | String c p' =>
      match s with
      | EmptyString => false
      | String d s' => Ascii.eqb d c && startsWith s' p'
      end
  end.

(** [s.includes(t)]: [t] occurs in [s] at some position. *)
Fixpoint includes (s t : string) : bool :=
  startsWith s t ||
  match s with
  | EmptyString => false
  | String _ s' => includes s' t
  end.

(** Truthiness of a possibly-undefined string: [undefined] and the empty
    string are falsy. *)
Definition truthy (s : option string) : bool :=
  match s with
  | None => false
  | Some EmptyString => false
  | Some (String _ _) => true
  end.

(** ** Specification-level reading of [includes] *)

Definition occursIn (t s : string) : Prop :=
  exists pre post, s = pre ++ t ++ post.

(** [t] is a substring of [s] when case is ignored. *)
Definition occursInCI (t s : string) : Prop :=
  occursIn (toLowerCase t) (toLowerCase s).

(** ** [parseInt(string)], radix argument absent *)

(** Leading white space that [parseInt] skips: the code units of
    [StrWhiteSpaceChar] below 256, which are TAB, LF, VT, FF, CR, SP and the
    no-break space U+00A0. *)
Definition isWhiteSpace (c : ascii) : bool :=
  let n := nat_of_ascii c in
  ((9 <=? n)%nat && (n <=? 13)%nat) || (n =? 32)%nat || (n =? 160)%nat.

Fixpoint trimStart (s : string) : string :=
  match s with
  | EmptyString => EmptyString
  | String c s' => if isWhiteSpace c then trimStart s' else s
  end.

(** The value of [c] as a digit: 0-9, then a-z and A-Z for 10-35. *)
Definition digitOf (c : ascii) : option Z :=
  let n := nat_of_ascii c in
  if (48 <=? n)%nat && (n <=? 57)%nat then Some (Z.of_nat n - 48)%Z
  else if (97 <=? n)%nat && (n <=? 122)%nat then Some (Z.of_nat n - 87)%Z
  else if (65 <=? n)%nat && (n <=? 90)%nat then Some (Z.of_nat n - 55)%Z
  else None.

(** [c] read as a digit of the given radix. *)
Definition radixDigit (radix : Z) (c : ascii) : option Z :=
  match digitOf c with
  | Some d => if (d <? radix)%Z then Some d else None
  | None => None
  end.

(** The longest prefix of radix digits, read most significant digit first;
    [None] when that prefix is empty. *)
Fixpoint readDigits (radix : Z) (s : string) (acc : Z) (seen : bool)
  : option Z :=
  match s with
  | EmptyString => if seen then Some acc else None
  | String c s' =>
      match radixDigit radix c with
      | Some d => readDigits radix s' (acc * radix + d)%Z true
      | None => if seen then Some acc else None
      end
  end.

(** [s] without its first two characters. *)
Definition dropTwo (s : string) : string :=
  match s with
  | String _ (String _ r) => r
  | _ => EmptyString
  end.

(** The Number values that [parseInt] and the sums of its results can take:
    a double that holds an integer, an infinity, or [NaN].  (A double of
    magnitude 2^53 or more is an integer, so the sum of two such doubles is
    one again or an infinity; the sign of zero is not observed by the pages:
    [-0 || 0] is [0].) *)
Inductive Number : Type :=
| Num (z : Z)
| PlusInfinity
| MinusInfinity
| NotANumber.

(** The double nearest to the integer [z], ties to the even significand
    (binary64: 53 bits of significand, overflow from 2^1024 - 2^970). *)
Definition roundToDouble (z : Z) : Number :=
  (let a := Z.abs z in
   if a <? 2 ^ 53 then Num z
   else
     let e := Z.log2 a - 52 in
     let q := a / 2 ^ e in
     let r := a mod 2 ^ e in
     let half := 2 ^ (e - 1) in
     let q' := if (r >? half) || ((r =? half) && Z.odd q) then q + 1 else q in
     let m := q' * 2 ^ e in
     if m >=? 2 ^ 1024
     then (if z <? 0 then MinusInfinity else PlusInfinity)
     else Num (Z.sgn z * m))%Z.

(** [a + b] on these values. *)
Definition add (a b : Number) : Number :=
  match a, b with
  | NotANumber, _ | _, NotANumber => NotANumber
  | PlusInfinity, MinusInfinity | MinusInfinity, PlusInfinity => NotANumber
  | PlusInfinity, _ | _, PlusInfinity => PlusInfinity
  | MinusInfinity, _ | _, MinusInfinity => MinusInfinity
  | Num x, Num y => roundToDouble (x + y)
  end.

(** [parseInt(s)]: the mathematical integer that the digits denote, as a
    Number.  (For a run of more than 20 significant decimal digits the
    standard also allows an approximation of that integer; the exact
    integer, rounded once, is what is taken here.) *)
Definition parseInt (s : string) : Number :=
  let s1 := trimStart s in
  let '(sign, s2) :=
    match s1 with
    | String c r =>
        if Ascii.eqb c "-" then ((-1)%Z, r)
        else if Ascii.eqb c "+" then (1%Z, r)
        else (1%Z, s1)
    | EmptyString => (1%Z, s1)
    end in
  let '(radix, s3) :=
    if startsWith s2 "0x" || startsWith s2 "0X"
    then (16%Z, dropTwo s2)
    else (10%Z, s2) in
  match readDigits radix s3 0%Z false with
  | Some v => roundToDouble (sign * v)
  | None => NotANumber
  end.

(** [n || 0] for a number: [NaN] and zero are falsy. *)
Definition orZero (n : Number) : Number :=
  match n with
  | NotANumber => Num 0
  | Num z => if (z =? 0)%Z then Num 0 else Num z
  | _ => n
  end.

(** ** [new Date(s).getTime()] for the date-only form [YYYY-MM-DD] *)

(** Days from 1970-01-01 to the given day of the proleptic Gregorian
    calendar. *)
Definition daysFromCivil (y m d : Z) : Z :=
  (let y' := if m <=? 2 then y - 1 else y in
   let era := y' / 400 in
   let yoe := y' - era * 400 in
   let mp := if m >? 2 then m - 3 else m + 9 in
   let doy := (153 * mp + 2) / 5 + d - 1 in
   let doe := yoe * 365 + yoe / 4 - yoe / 100 + doy in
   era * 146097 + doe - 719468)%Z.

Definition isLeapYear (y : Z) : bool :=
  ((y mod 4 =? 0) && negb (y mod 100 =? 0) || (y mod 400 =? 0))%Z.

Definition daysInMonth (y m : Z) : Z :=
  (if m =? 2 then (if isLeapYear y then 29 else 28)
   else if (m =? 4) || (m =? 6) || (m =? 9) || (m =? 11) then 30
   else 31)%Z.

Definition msPerDay : Z := 1000 * 60 * 60 * 24.

Definition decimalDigit (c : ascii) : option Z := radixDigit 10 c.

(** The time value of [new Date(s)] for a string in the date-only form
    [YYYY-MM-DD], the form an [<input type="date">] produces: midnight UTC
    of that day, in milliseconds since the epoch.  [None] is an invalid date
    ([NaN]); strings in other forms are not covered by this reading and are
    answered [None]. *)
Definition dateOnlyTime (s : string) : option Z :=
  match s with
  | String y1 (String y2 (String y3 (String y4 (String "-"
      (String m1 (String m2 (String "-" (String d1 (String d2
        EmptyString))))))))) =>
      match decimalDigit y1, decimalDigit y2, decimalDigit y3, decimalDigit y4,
            decimalDigit m1, decimalDigit m2, decimalDigit d1, decimalDigit d2
      with
      | Some a, Some b, Some c, Some d, Some e, Some f, Some g, Some h =>
          (let y := a * 1000 + b * 100 + c * 10 + d in
           let m := e * 10 + f in
           let dd := g * 10 + h in
           if (1 <=? m) && (m <=? 12) && (1 <=? dd) && (dd <=? daysInMonth y m)
           then Some (daysFromCivil y m dd * msPerDay)
           else None)%Z
      | _, _, _, _, _, _, _, _ => None
      end
  | _ => None
  end.

End JS.


(* ================================================================== *)
(** * The document store as the pages see it *)
(* ================================================================== *)

Module Firestore.

(** Exceptions that reach a [catch] (or escape the handler). *)
Inductive Error : Type :=
| FirestoreError   (* a request was rejected, or the client refused it *)
| TypeError        (* a property of [undefined] was read *)
| ReferenceError.  (* an identifier that is not in scope was read *)

Inductive Result (A : Type) : Type :=
| Ok (a : A)
| Throw (e : Error).
Arguments Ok {A} a.
Arguments Throw {A} e.

(** An asynchronous computation over a world [W]: it runs to completion on
    the world it is given and either returns or throws. *)
Definition Async (W A : Type) : Type := W -> Result A * W.

Definition ret {W A} (a : A) : Async W A := fun w => (Ok a, w).

Definition throw {W A} (e : Error) : Async W A := fun w => (Throw e, w).

Definition bind {W A B} (m : Async W A) (k : A -> Async W B) : Async W B :=
  fun w =>
    match m w with
    | (Ok a, w') => k a w'
    | (Throw e, w') => (Throw e, w')
    end.

(** [try { body } catch (error) { handler(error) }] *)
Definition tryCatch {W A} (body : Async W A) (handler : Error -> Async W A)
  : Async W A :=
  fun w =>
    match body w with
    | (Ok a, w') => (Ok a, w')
    | (Throw e, w') => handler e w'
    end.

(** Lifting of a synchronous computation that may throw. *)
Definition liftResult {W A} (r : Result A) : Async W A := fun w => (r, w).

(** What the backend answers to one request: it rejects it, or resolves it;
    for [addDoc] the answer carries the identifier assigned to the new
    document. *)
Inductive Reply : Type :=
| Rejected
| Resolved (autoId : string).

(** The network: the number of requests issued so far and the answers the
    backend gives to the requests, by issue number. *)
Record Net : Type := mkNet {
  clock : nat;
  oracle : nat -> Reply
}.

Definition tick (n : Net) : Net := mkNet (S (clock n)) (oracle n).

(** A collection: its documents, identifier first, in query order. *)
Definition Collection (D : Type) : Type := list (string * D).

(** [getDoc]'s snapshot of one document: [None] when [exists()] is false. *)
Fixpoint lookupDoc {D} (c : Collection D) (id : string) : option D :=
  match c with
  | [] => None
  | (k, d) :: c' => if String.eqb k id then Some d else lookupDoc c' id
  end.

(** A query for a whole collection answers its documents in the order of
    their identifiers, whatever the order in which they were written.  A
    collection that is read back in that order takes a new document in
    front of the first document whose identifier is greater. *)
Fixpoint insertDoc {D} (newId : string) (d : D) (c : Collection D)
  : Collection D :=
  match c with
  | [] => [(newId, d)]
  | (k, x) :: c' =>
      if String.ltb newId k then (newId, d) :: c
      else (k, x) :: insertDoc newId d c'
  end.

End Firestore.

Declare Scope async_scope.
Delimit Scope async_scope with async.
Notation "x <- m ;; k" := (Firestore.bind m (fun x => k))
  (at level 61, m at next level, right associativity) : async_scope.
Notation "m ;;; k" := (Firestore.bind m (fun _ => k))
  (at level 61, right associativity) : async_scope.

(* ================================================================== *)
(** * src/pages/ShoppingList.tsx *)
(* ================================================================== *)

Module ShoppingList.
Import Firestore.
Local Open Scope async_scope.
Local Open Scope list_scope.

(** [interface ProductVariant]; the variants built by the add dialog carry
    no [id] ([Omit<ProductVariant, 'id'>]). *)
Record ProductVariant : Type := mkProductVariant {
  pv_id : option string;
  productName : string;
  price : float;
  quantity : float;
  pv_unit : string;
  pricePerUnit : float;
  store : string;
  storeUrl : string
}.

(** The [currentProduct] state of both dialogs. *)
Record CurrentProduct : Type := mkCurrentProduct {
  cp_productName : string;
  cp_price : float;
  cp_quantity : float;
  cp_unit : string;
  cp_store : string;
  cp_storeUrl : string
}.

Definition blankProduct : CurrentProduct :=
  mkCurrentProduct "" 0%float 0%float "" "" "".

(** [{ ...currentProduct, id, pricePerUnit }] *)
Definition variantOf (cp : CurrentProduct) (id : option string)
  (pricePerUnit : float) : ProductVariant :=
  mkProductVariant id (cp_productName cp) (cp_price cp) (cp_quantity cp)
    (cp_unit cp) pricePerUnit (cp_store cp) (cp_storeUrl cp).

(** [interface ShoppingItem] *)
Record ShoppingItem : Type := mkShoppingItem {
  id : string;
  name : string;
  category : string;
  completed : bool;
  products : list ProductVariant
}.

(** [Omit<ShoppingItem, 'id'>] *)
Record NewItem : Type := mkNewItem {
  new_name : string;
  new_category : string;
  new_completed : bool;
  new_products : list ProductVariant
}.

(** [interface ShoppingList], as far as it is read. *)
Record ShoppingListDoc : Type := mkShoppingListDoc {
  list_id : string;
  list_name : string
}.

(** ** The two dialogs *)

Module AddItemModal.

(** [handleAddProduct]: the new [products] and the reset [currentProduct]. *)
Definition handleAddProduct (products : list ProductVariant)
  (currentProduct : CurrentProduct) : list ProductVariant * CurrentProduct :=
  let pricePerUnit := (cp_price currentProduct / cp_quantity currentProduct)%float in
  (products ++ [variantOf currentProduct None pricePerUnit], blankProduct).

End AddItemModal.

Module EditItemModal.

(** [handleAddProduct]: the new [editedItem] and the reset [currentProduct];
    [now] is the text of [Date.now()]. *)
Definition handleAddProduct (now : string) (editedItem : ShoppingItem)
  (currentProduct : CurrentProduct) : ShoppingItem * CurrentProduct :=
  let pricePerUnit := (cp_price currentProduct / cp_quantity currentProduct)%float in
  (mkShoppingItem (id editedItem) (name editedItem) (category editedItem)
     (completed editedItem)
     (products editedItem
        ++ [variantOf currentProduct (Some ("temp-" ++ now)%string) pricePerUnit]),
   blankProduct).

End EditItemModal.

(** ** The page *)

(** The state of the page that its handlers read or write (the flags that
    open and close dialogs are left out). *)
Record View : Type := mkView {
  shoppingLists : list ShoppingListDoc;
  currentList : option ShoppingListDoc;
  items : list ShoppingItem;
  selectedItems : list string
}.

Definition initialView : View := mkView [] None [] [].

(** The store ([shoppingLists], and the [items] sub-collections as pairs of
    list identifier and document), the network, the console and the page. *)
Record World : Type := mkWorld {
  listDocs : list ShoppingListDoc;
  itemDocs : list (string * ShoppingItem);
  net : Net;
  consoleErrors : list string;
  view : View
}.

Definition setView (f : View -> View) : Async World unit :=
  fun w => (Ok tt, mkWorld (listDocs w) (itemDocs w) (net w) (consoleErrors w)
                           (f (view w))).

Definition readView : Async World View := fun w => (Ok (view w), w).

Definition consoleError (msg : string) : Async World unit :=
  fun w => (Ok tt, mkWorld (listDocs w) (itemDocs w) (net w)
                           (consoleErrors w ++ [msg]) (view w)).

(** One request: the backend's answer to it, and the clock advanced. *)
Definition request : Async World string :=
  fun w =>
    let w' := mkWorld (listDocs w) (itemDocs w) (tick (net w))
                      (consoleErrors w) (view w) in
    match oracle (net w) (clock (net w)) with
    | Rejected => (Throw FirestoreError, w')
    | Resolved autoId => (Ok autoId, w')
    end.

Definition setItemDocs (f : list (string * ShoppingItem) -> list (string * ShoppingItem))
  : Async World unit :=
  fun w => (Ok tt, mkWorld (listDocs w) (f (itemDocs w)) (net w)
                           (consoleErrors w) (view w)).

Definition setListDocs (f : list ShoppingListDoc -> list ShoppingListDoc)
  : Async World unit :=
  fun w => (Ok tt, mkWorld (f (listDocs w)) (itemDocs w) (net w)
                           (consoleErrors w) (view w)).

Definition inList (listId : string) (d : string * ShoppingItem) : bool :=
  String.eqb (fst d) listId.

Definition isDoc (listId itemId : string) (d : string * ShoppingItem) : bool :=
  String.eqb (fst d) listId && String.eqb (id (snd d)) itemId.

(** [getDocs(collection(db, 'shoppingLists'))] *)
Definition getDocsLists : Async World (list ShoppingListDoc) :=
  request ;;; fun w => (Ok (listDocs w), w).

(** [getDocs(collection(db, 'shoppingLists', listId, 'items'))], mapped to
    [{ id: doc.id, ...doc.data() }]. *)
Definition getDocsItems (listId : string) : Async World (list ShoppingItem) :=
  request ;;;
  fun w => (Ok (map snd (filter (inList listId) (itemDocs w))), w).

(** [addDoc(collection(db, 'shoppingLists', listId, 'items'), newItem)] *)
Definition addDocItem (listId : string) (newItem : NewItem)
  : Async World string :=
  newId <- request ;;
  setItemDocs (fun docs =>
    docs ++ [(listId, mkShoppingItem newId (new_name newItem)
                        (new_category newItem) (new_completed newItem)
                        (new_products newItem))]) ;;;
  ret newId.

(** [addDoc(collection(db, 'shoppingLists'), newList)] *)
Definition addDocList (listName : string) : Async World string :=
  newId <- request ;;
  setListDocs (fun docs => docs ++ [mkShoppingListDoc newId listName]) ;;;
  ret newId.

(** [updateDoc(doc(db, 'shoppingLists', listId, 'items', itemId), fields)]:
    rejected when the document does not exist. *)
Definition updateDocItem (listId itemId : string)
  (fields : ShoppingItem -> ShoppingItem) : Async World unit :=
  request ;;;
  (fun w =>
     if existsb (isDoc listId itemId) (itemDocs w)
     then setItemDocs
            (map (fun d => if isDoc listId itemId d
                           then (fst d, fields (snd d)) else d)) w
     else (Throw FirestoreError, w)).

(** [deleteDoc(doc(db, 'shoppingLists', listId, 'items', itemId))] *)
Definition deleteDocItem (listId itemId : string) : Async World unit :=
  request ;;;
  setItemDocs (filter (fun d => negb (isDoc listId itemId d))).

Section Collation.

(** [a.localeCompare(b)]: the collation of the runtime's locale, by its
    sign. *)
Variable localeCompare : string -> string -> comparison.

(** [xs.sort((a, b) => a.name.localeCompare(b.name))].  The sort of the
    runtime is stable, and for a comparator that is a total preorder every
    stable sort returns the same array: it is given here as the stable
    insertion sort. *)
Fixpoint insertByName (x : ShoppingItem) (l : list ShoppingItem)
  : list ShoppingItem :=
  match l with
  | [] => [x]
  | y :: l' =>
      match localeCompare (name x) (name y) with
      | Gt => y :: insertByName x l'
      | _ => x :: l
      end
  end.

Definition sortByName (l : list ShoppingItem) : list ShoppingItem :=
  fold_right insertByName [] l.

Definition setItems (l : list ShoppingItem) : Async World unit :=
  setView (fun v => mkView (shoppingLists v) (currentList v) l (selectedItems v)).

(** [fetchItems] *)
Definition fetchItems (listId : string) : Async World unit :=
  tryCatch
    (itemsData <- getDocsItems listId ;;
     setItems (sortByName itemsData))
    (fun _ => consoleError "Error fetching items:").

(** [fetchShoppingLists], the effect run when the page is mounted. *)
Definition fetchShoppingLists : Async World unit :=
  tryCatch
    (lists <- getDocsLists ;;
     setView (fun v => mkView lists (currentList v) (items v) (selectedItems v)) ;;;
     match lists with
     | first :: _ =>
         setView (fun v => mkView (shoppingLists v) (Some first) (items v)
                                  (selectedItems v)) ;;;
         fetchItems (list_id first)
     | [] => ret tt
     end)
    (fun _ => consoleError "Error fetching shopping lists:").

(** [handleAddList] *)
Definition handleAddList (listName : string) : Async World unit :=
  v <- readView ;;
  tryCatch
    (newId <- addDocList listName ;;
     let newListWithId := mkShoppingListDoc newId listName in
     setView (fun v' => mkView (shoppingLists v ++ [newListWithId])
                               (Some newListWithId) (items v') (selectedItems v')))
    (fun _ => consoleError "Error adding shopping list:").

(** [handleAddItem] *)
Definition handleAddItem (newItem : NewItem) : Async World unit :=
  v <- readView ;;
  match currentList v with
  | None => ret tt
  | Some l =>
      tryCatch
        (newId <- addDocItem (list_id l) newItem ;;
         let newItemWithId :=
           mkShoppingItem newId (new_name newItem) (new_category newItem)
             (new_completed newItem) (new_products newItem) in
         setItems (sortByName (items v ++ [newItemWithId])))
        (fun _ => consoleError "Error adding shopping item:")
  end.

(** [handleSaveEdit] *)
Definition handleSaveEdit (editedItem : ShoppingItem) : Async World unit :=
  v <- readView ;;
  match currentList v with
  | None => ret tt
  | Some l =>
      tryCatch
        (updateDocItem (list_id l) (id editedItem) (fun _ => editedItem) ;;;
         setItems (sortByName
           (map (fun item => if String.eqb (id item) (id editedItem)
                             then editedItem else item) (items v))))
        (fun _ => consoleError "Error updating shopping item:")
  end.

(** [{ ...item, completed: !item.completed }] *)
Definition toggled (item : ShoppingItem) : ShoppingItem :=
  mkShoppingItem (id item) (name item) (category item)
    (negb (completed item)) (products item).

(** [toggleComplete] *)
Definition toggleComplete (item : ShoppingItem) : Async World unit :=
  v <- readView ;;
  match currentList v with
  | None => ret tt
  | Some l =>
      tryCatch
        (let updatedItem := toggled item in
         updateDocItem (list_id l) (id item)
           (fun d => mkShoppingItem (id d) (name d) (category d)
                       (negb (completed item)) (products d)) ;;;
         setItems (sortByName
           (map (fun i => if String.eqb (id i) (id item)
                          then updatedItem else i) (items v))))
        (fun _ => consoleError "Error toggling item completion:")
  end.

(** [handleSelectItem] *)
Definition handleSelectItem (itemId : string) : Async World unit :=
  setView (fun prev =>
    mkView (shoppingLists prev) (currentList prev) (items prev)
      (if existsb (String.eqb itemId) (selectedItems prev)
       then filter (fun i => negb (String.eqb i itemId)) (selectedItems prev)
       else selectedItems prev ++ [itemId])).

Fixpoint deleteEach (listId : string) (ids : list string) : Async World unit :=
  match ids with
  | [] => ret tt
  | itemId :: rest => deleteDocItem listId itemId ;;; deleteEach listId rest
  end.

(** [handleDeleteSelected] *)
Definition handleDeleteSelected : Async World unit :=
  v <- readView ;;
  match currentList v, selectedItems v with
  | None, _ => ret tt
  | Some _, [] => ret tt
  | Some l, selected =>
      tryCatch
        (deleteEach (list_id l) selected ;;;
         setItems (sortByName
           (filter (fun item => negb (existsb (String.eqb (id item)) selected))
                   (items v))) ;;;
         setView (fun v' => mkView (shoppingLists v') (currentList v')
                                   (items v') []))
        (fun _ => consoleError "Error deleting selected items:")
  end.

(** [handleDeleteItem] *)
Definition handleDeleteItem (itemId : string) : Async World unit :=
  v <- readView ;;
  match currentList v with
  | None => ret tt
  | Some l =>
      tryCatch
        (deleteDocItem (list_id l) itemId ;;;
         setItems (sortByName
           (filter (fun item => negb (String.eqb (id item) itemId)) (items v))))
        (fun _ => consoleError "Error deleting item:")
  end.

(** Choosing a list in the drop-down: [setCurrentList(list)], then a call of
    [fetchItems], which is declared inside the mount effect and is not in
    scope here. *)
Definition chooseList (l : ShoppingListDoc) : Async World unit :=
  setView (fun v => mkView (shoppingLists v) (Some l) (items v) (selectedItems v)) ;;;
  throw ReferenceError.

(** What the user and the page can do. *)
Inductive Event : Type :=
| Mount
| AddList (listName : string)
| ChooseList (l : ShoppingListDoc)
| AddItem (newItem : NewItem)
| SaveEdit (editedItem : ShoppingItem)
| ToggleComplete (item : ShoppingItem)
| SelectItem (itemId : string)
| DeleteSelected
| DeleteItem (itemId : string).

Definition handle (e : Event) : Async World unit :=
  match e with
  | Mount => fetchShoppingLists
  | AddList listName => handleAddList listName
  | ChooseList l => chooseList l
  | AddItem newItem => handleAddItem newItem
  | SaveEdit editedItem => handleSaveEdit editedItem
  | ToggleComplete item => toggleComplete item
  | SelectItem itemId => handleSelectItem itemId
  | DeleteSelected => handleDeleteSelected
  | DeleteItem itemId => handleDeleteItem itemId
  end.

(** The world after an event has been handled to its end. *)
Definition after (e : Event) (w : World) : World := snd (handle e w).

(** The worlds the page can be in: it starts with its initial state over any
    store and network, and handles one event after the other. *)
Inductive reachable : World -> Prop :=
| reachable_start (lists : list ShoppingListDoc)
    (docs : list (string * ShoppingItem)) (n : Net) :
    reachable (mkWorld lists docs n [] initialView)
| reachable_after (e : Event) (w : World) :
    reachable w -> reachable (after e w).

End Collation.

End ShoppingList.

(* ================================================================== *)
(** * src/pages/Recipes.tsx *)
(* ================================================================== *)

Module Recipes.
Import Firestore.
Local Open Scope async_scope.

(** [interface Ingredient]; [name] is read through [?.] and tested for
    truthiness, so it may be absent.  [quantity] (a number) is never read by
    the functions below and is left out. *)
Record Ingredient : Type := mkIngredient {
  ing_name : option string;
  ing_unit : string
}.

(** [interface Recipe].  [ingredients] is tested with [!recipe.ingredients]
    and its elements are read through [ingredient?.name]: the array and each
    of its elements may be absent. *)
Record Recipe : Type := mkRecipe {
  id : string;
  name : string;
  description : string;
  cuisine : string;
  category : string;
  prepTime : string;
  cookTime : string;
  ingredients : option (list (option Ingredient));
  instructions : list string
}.

(** [interface InventoryItem]; items and names are read as [item?.name?.]. *)
Record InventoryItem : Type := mkInventoryItem {
  inv_id : string;
  inv_name : option string;
  inv_unit : string
}.

(** [ingredient?.name] *)
Definition nameOf (i : option Ingredient) : option string :=
  match i with
  | Some x => ing_name x
  | None => None
  end.

(** [item?.name?.toLowerCase().includes(ingredientLower)], coerced to a
    boolean by [some]. *)
Definition itemMatches (ingredientLower : string) (item : option InventoryItem)
  : bool :=
  match item with
  | Some it =>
      match inv_name it with
      | Some n => JS.includes (JS.toLowerCase n) ingredientLower
      | None => false
      end
  | None => false
  end.

(** [checkIngredientInStock] (the spec's [isIngredientInStock]). *)
Definition checkIngredientInStock (inventory : list (option InventoryItem))
  (ingredient : option string) : bool :=
  match ingredient with
  | None => false
  | Some EmptyString => false
  | Some s =>
      let ingredientLower := JS.toLowerCase s in
      existsb (itemMatches ingredientLower) inventory
  end.

(** The callback of [every]:
    [ingredient?.name && checkIngredientInStock(ingredient.name)]. *)
Definition ingredientInStock (inventory : list (option InventoryItem))
  (i : option Ingredient) : bool :=
  JS.truthy (nameOf i) && checkIngredientInStock inventory (nameOf i).

(** [hasAllIngredientsInStock] *)
Definition hasAllIngredientsInStock (inventory : list (option InventoryItem))
  (recipe : Recipe) : bool :=
  match ingredients recipe with
  | None => false
  | Some ings => forallb (ingredientInStock inventory) ings
  end.

(** ** The filter of the Recipes view *)

Record FilterState : Type := mkFilterState {
  searchTerm : string;
  categoryFilter : string;
  showOnlyInStock : bool
}.

(** [ingredient?.name?.toLowerCase().includes(searchTerm.toLowerCase())] *)
Definition ingredientMatchesSearch (term : string) (i : option Ingredient)
  : bool :=
  match nameOf i with
  | Some n => JS.includes (JS.toLowerCase n) (JS.toLowerCase term)
  | None => false
  end.

(** [matchesSearch]: the four disjuncts are evaluated left to right and
    [recipe.ingredients.some] throws when the array is absent. *)
Definition matchesSearch (fs : FilterState) (recipe : Recipe) : Result bool :=
  let term := JS.toLowerCase (searchTerm fs) in
  if JS.includes (JS.toLowerCase (name recipe)) term then Ok true
  else if JS.includes (JS.toLowerCase (description recipe)) term then Ok true
  else if JS.includes (JS.toLowerCase (cuisine recipe)) term then Ok true
  else match ingredients recipe with
       | None => Throw TypeError
       | Some ings => Ok (existsb (ingredientMatchesSearch (searchTerm fs)) ings)
       end.

(** [!categoryFilter || recipe.category === categoryFilter] *)
Definition matchesCategory (fs : FilterState) (recipe : Recipe) : bool :=
  negb (JS.truthy (Some (categoryFilter fs)))
  || String.eqb (category recipe) (categoryFilter fs).

(** [!showOnlyInStock || hasAllIngredientsInStock(recipe)] *)
Definition matchesStock (fs : FilterState)
  (inventory : list (option InventoryItem)) (recipe : Recipe) : bool :=
  negb (showOnlyInStock fs) || hasAllIngredientsInStock inventory recipe.

(** The callback of [recipes.filter]. *)
Definition recipePasses (fs : FilterState)
  (inventory : list (option InventoryItem)) (recipe : Recipe) : Result bool :=
  match matchesSearch fs recipe with
  | Throw e => Throw e
  | Ok ms =>
      let mc := matchesCategory fs recipe in
      let mst := matchesStock fs inventory recipe in
      Ok (ms && mc && mst)
  end.

(** [filteredRecipes]: a throwing callback aborts the whole filter. *)
Fixpoint filteredRecipes (fs : FilterState)
  (inventory : list (option InventoryItem)) (recipes : list Recipe)
  : Result (list Recipe) :=
  match recipes with
  | [] => Ok []
  | r :: rest =>
      match recipePasses fs inventory r with
      | Throw e => Throw e
      | Ok b =>
          match filteredRecipes fs inventory rest with
          | Throw e => Throw e
          | Ok kept => Ok (if b then r :: kept else kept)
          end
      end
  end.

(** ** Adding the missing ingredients to the active shopping list *)

(** The document written for one missing ingredient; [products] is an array
    of product variants, always empty here. *)
Record ShoppingItemData : Type := mkShoppingItemData {
  si_name : option string;
  si_category : string;
  si_completed : bool;
  si_products : list ShoppingList.ProductVariant
}.

(** [interface ShoppingList] as far as it is read: its identifier. *)
Record ShoppingList : Type := mkShoppingList {
  list_id : string;
  list_name : string
}.

(** The world of the handler: the [shoppingLists/<list>/items]
    sub-collections (list identifier, then the document), the network, and
    what the handler showed or logged. *)
Record World : Type := mkWorld {
  itemDocs : list (string * (string * ShoppingItemData));
  net : Net;
  alerts : list string;
  consoleErrors : list string
}.

(** [addDoc(collection(db, 'shoppingLists', listId, 'items'), data)].
    The client of [getFirestore(app)] validates the data before it sends
    anything: a field whose value is [undefined] makes the call throw, and
    no request is issued. *)
Definition addDoc (listId : string) (data : ShoppingItemData)
  : Async World string :=
  fun w =>
    match si_name data with
    | None => (Throw FirestoreError, w)
    | Some _ =>
        let n := net w in
        match oracle n (clock n) with
        | Rejected =>
            (Throw FirestoreError,
             mkWorld (itemDocs w) (tick n) (alerts w) (consoleErrors w))
        | Resolved newId =>
            (Ok newId,
             mkWorld (itemDocs w ++ [(listId, (newId, data))]) (tick n)
                     (alerts w) (consoleErrors w))
        end
    end.

Definition alert (msg : string) : Async World unit :=
  fun w => (Ok tt, mkWorld (itemDocs w) (net w) (alerts w ++ [msg]) (consoleErrors w)).

Definition consoleError (msg : string) : Async World unit :=
  fun w => (Ok tt, mkWorld (itemDocs w) (net w) (alerts w) (consoleErrors w ++ [msg])).

(** [recipe.ingredients.filter(ingredient =>
       !checkIngredientInStock(ingredient.name))]:
    reading [.name] of an absent element, or [.filter] of an absent array,
    throws. *)
Fixpoint filterMissing (inventory : list (option InventoryItem))
  (ings : list (option Ingredient)) : Result (list Ingredient) :=
  match ings with
  | [] => Ok []
  | None :: _ => Throw TypeError
  | Some i :: rest =>
      match filterMissing inventory rest with
      | Throw e => Throw e
      | Ok kept =>
          Ok (if negb (checkIngredientInStock inventory (ing_name i))
              then i :: kept else kept)
      end
  end.

Definition missingIngredients (inventory : list (option InventoryItem))
  (recipe : Recipe) : Result (list Ingredient) :=
  match ingredients recipe with
  | None => Throw TypeError
  | Some ings => filterMissing inventory ings
  end.

Definition newShoppingItem (ingredient : Ingredient) : ShoppingItemData :=
  mkShoppingItemData (ing_name ingredient) "Ingredients" false [].

(** The [for ... of] loop: one awaited [addDoc] per missing ingredient. *)
Fixpoint addEach (listId : string) (missing : list Ingredient)
  : Async World unit :=
  match missing with
  | [] => ret tt
  | ingredient :: rest =>
      addDoc listId (newShoppingItem ingredient) ;;;
      addEach listId rest
  end.

(** [handleAddMissingIngredients] *)
Definition handleAddMissingIngredients (currentList : option ShoppingList)
  (inventory : list (option InventoryItem)) (recipe : Recipe)
  : Async World unit :=
  match currentList with
  | None => ret tt
  | Some l =>
      missing <- liftResult (missingIngredients inventory recipe) ;;
      tryCatch
        (addEach (list_id l) missing ;;;
         alert "Missing ingredients added to the shopping list!")
        (fun _ => consoleError "Error adding missing ingredients:")
  end.

End Recipes.


(* ================================================================== *)
(** * src/pages/Inventory.tsx *)
(* ================================================================== *)

Module Inventory.
Local Open Scope Z_scope.

(** The two predicates read the clock ([new Date()]) and the date parser
    ([new Date(date)]) of the runtime.  Both are arguments here: [now] is the
    current instant and [parse s] the time value of [new Date(s)], in
    milliseconds since the epoch, [None] standing for an invalid date. *)

(** [isExpiringSoon]; comparisons with [NaN] are false. *)
Definition isExpiringSoon (parse : string -> option Z) (now : Z)
  (date : option string) : bool :=
  if negb (JS.truthy date) then false
  else
    match date with
    | None => false
    | Some s =>
        match parse s with
        | None => false
        | Some expirationDate =>
            let daysUntilExpiration := (expirationDate - now) / JS.msPerDay in
            (daysUntilExpiration <=? 7) && (daysUntilExpiration >=? 0)
        end
    end.

(** [isExpired] *)
Definition isExpired (parse : string -> option Z) (now : Z)
  (date : option string) : bool :=
  if negb (JS.truthy date) then false
  else
    match date with
    | None => false
    | Some s =>
        match parse s with
        | None => false
        | Some expirationDate => expirationDate <? now
        end
    end.

Inductive ExpirationStatus : Type :=
| none
| expiringSoon
| expired.

(** The status as the table renders it:
    [isExpired(d) ? red : isExpiringSoon(d) ? yellow : gray]. *)
Definition expirationStatus (parse : string -> option Z) (now : Z)
  (date : option string) : ExpirationStatus :=
  if isExpired parse now date then expired
  else if isExpiringSoon parse now date then expiringSoon
  else none.

End Inventory.

(* ================================================================== *)
(** * src/pages/Menu.tsx *)
(* ================================================================== *)

Module Menu.
Local Open Scope Z_scope.

(** [interface Recipe] of the Menu page ([servings], a number that the
    totals do not read, is left out). *)
Record Recipe : Type := mkRecipe {
  id : string;
  name : string;
  description : string;
  cuisine : string;
  category : string;
  image : string;
  prepTime : string;
  cookTime : string;
  ingredients : list string;
  instructions : list string;
  mealType : string
}.

(** [interface MenuItem] *)
Record MenuItem : Type := mkMenuItem {
  menu_id : string;
  menu_name : string;
  menu_description : string;
  menu_mealType : string;
  recipes : list Recipe
}.

(** [menu.recipes.reduce((total, recipe) =>
       total + (parseInt(recipe.prepTime) || 0), 0)] *)
Definition totalPrepTime (menu : MenuItem) : JS.Number :=
  fold_left
    (fun total recipe =>
       let prepMinutes := JS.orZero (JS.parseInt (prepTime recipe)) in
       JS.add total prepMinutes)
    (recipes menu) (JS.Num 0).

Definition totalCookTime (menu : MenuItem) : JS.Number :=
  fold_left
    (fun total recipe =>
       let cookMinutes := JS.orZero (JS.parseInt (cookTime recipe)) in
       JS.add total cookMinutes)
    (recipes menu) (JS.Num 0).

End Menu.


(* ================================================================== *)
(** * src/pages/Calendar.tsx *)
(* ================================================================== *)

Module Calendar.
Import Firestore.
Local Open Scope async_scope.
Local Open Scope list_scope.

(** [interface Recipe] of the Calendar page, without the fields the page
    only displays. *)
Record Recipe : Type := mkRecipe {
  recipe_id : string;
  recipe_name : string;
  prepTime : string;
  cookTime : string;
  ingredients : list string;
  instructions : list string
}.

(** The fields of a stored menu document ([menuSnapshot.data()]). *)
Record MenuData : Type := mkMenuData {
  menu_name : string;
  menu_description : string;
  recipes : list Recipe
}.

(** [{ id: menuSnapshot.id, ...menuSnapshot.data() }]: the identifier asked
    for and, when the document exists, its fields.  For a document that does
    not exist [data()] is [undefined] and the spread adds nothing. *)
Record MenuItem : Type := mkMenuItem {
  menu_id : string;
  menu_fields : option MenuData
}.

(** The fields of a stored calendar document. *)
Record CalendarData : Type := mkCalendarData {
  date : string;
  menuId : string
}.

(** [interface CalendarEntry] *)
Record CalendarEntry : Type := mkCalendarEntry {
  entry_id : string;
  entry_date : string;
  entry_menuId : string;
  menu : MenuItem
}.

(** The [calendar] and [menus] collections, the network, the console, and
    the [calendarEntries] state of the page. *)
Record World : Type := mkWorld {
  calendarDocs : Collection CalendarData;
  menuDocs : Collection MenuData;
  net : Net;
  consoleErrors : list string;
  calendarEntries : list CalendarEntry
}.

Definition request : Async World string :=
  fun w =>
    let w' := mkWorld (calendarDocs w) (menuDocs w) (tick (net w))
                      (consoleErrors w) (calendarEntries w) in
    match oracle (net w) (clock (net w)) with
    | Rejected => (Throw FirestoreError, w')
    | Resolved autoId => (Ok autoId, w')
    end.

Definition consoleError (msg : string) : Async World unit :=
  fun w => (Ok tt, mkWorld (calendarDocs w) (menuDocs w) (net w)
                           (consoleErrors w ++ [msg]) (calendarEntries w)).

Definition setCalendarEntries (l : list CalendarEntry) : Async World unit :=
  fun w => (Ok tt, mkWorld (calendarDocs w) (menuDocs w) (net w)
                           (consoleErrors w) l).

Definition readCalendarEntries : Async World (list CalendarEntry) :=
  fun w => (Ok (calendarEntries w), w).

(** [getDocs(collection(db, 'calendar'))]: the records in the order of the
    collection. *)
Definition getDocsCalendar : Async World (Collection CalendarData) :=
  request ;;; fun w => (Ok (calendarDocs w), w).

(** [getDoc(doc(db, 'menus', menuId))]: the snapshot, [None] when
    [exists()] is false. *)
Definition getDocMenu (menuId : string) : Async World (option MenuData) :=
  request ;;; fun w => (Ok (lookupDoc (menuDocs w) menuId), w).

(** [addDoc(collection(db, 'calendar'), entry)]: the identifier is the one
    the backend assigns, and it decides where [getDocs] will show the new
    record among the others. *)
Definition addDocCalendar (entry : CalendarData) : Async World string :=
  newId <- request ;;
  (fun w => (Ok newId,
             mkWorld (insertDoc newId entry (calendarDocs w)) (menuDocs w)
                     (net w) (consoleErrors w) (calendarEntries w))).

(** The callback mapped over the calendar documents by
    [fetchCalendarEntries]: the entry with its menu attached, or [null]. *)
Definition loadEntry (docSnapshot : string * CalendarData)
  : Async World (option CalendarEntry) :=
  let data := snd docSnapshot in
  tryCatch
    (menuSnapshot <- getDocMenu (menuId data) ;;
     match menuSnapshot with
     | None =>
         consoleError ("Menu with ID " ++ menuId data ++ " not found")%string ;;;
         ret None
     | Some fields =>
         let menuData := mkMenuItem (menuId data) (Some fields) in
         ret (Some (mkCalendarEntry (fst docSnapshot) (date data)
                      (menuId data) menuData))
     end)
    (fun _ =>
       consoleError ("Error fetching menu " ++ menuId data ++ ":")%string ;;;
       ret None).

(** [Promise.all(docs.map(callback))]: the callbacks issue their requests in
    the order of the documents. *)
Fixpoint promiseAll {A B} (callback : A -> Async World B) (xs : list A)
  : Async World (list B) :=
  match xs with
  | [] => ret []
  | x :: rest =>
      y <- callback x ;;
      ys <- promiseAll callback rest ;;
      ret (y :: ys)
  end.

(** [entries.filter(entry => entry !== null)] *)
Fixpoint nonNull {A} (xs : list (option A)) : list A :=
  match xs with
  | [] => []
  | Some x :: rest => x :: nonNull rest
  | None :: rest => nonNull rest
  end.

(** [fetchCalendarEntries] *)
Definition fetchCalendarEntries : Async World unit :=
  tryCatch
    (docs <- getDocsCalendar ;;
     entries <- promiseAll loadEntry docs ;;
     setCalendarEntries (nonNull entries))
    (fun _ => consoleError "Error fetching calendar entries:").

(** [handleSaveMenu]; [dateText] is [format(date, 'yyyy-MM-dd')]. *)
Definition handleSaveMenu (dateText : string) (menuId : string)
  : Async World unit :=
  shown <- readCalendarEntries ;;
  tryCatch
    (let entry := mkCalendarData dateText menuId in
     docRefId <- addDocCalendar entry ;;
     menuSnapshot <- getDocMenu menuId ;;
     let menuData := mkMenuItem menuId menuSnapshot in
     setCalendarEntries
       (shown ++ [mkCalendarEntry docRefId dateText menuId menuData]))
    (fun _ => consoleError "Error saving calendar entry:").

End Calendar.

(* ================================================================== *)
(** * [Set<string>] *)
(* ================================================================== *)

Module JSSet.
Local Open Scope list_scope.

(** A set of strings is the list of its elements in insertion order, each
    once. *)
Definition has (s : list string) (x : string) : bool :=
  existsb (String.eqb x) s.

Definition add (s : list string) (x : string) : list string :=
  if has s x then s else s ++ [x].

Definition delete (s : list string) (x : string) : list string :=
  filter (fun y => negb (String.eqb y x)) s.

(** [new Set(xs)] *)
Definition ofArray (xs : list string) : list string :=
  fold_left add xs [].

End JSSet.

(* ================================================================== *)
(** * src/pages/Inventory.tsx: the page *)
(* ================================================================== *)

Module InventoryPage.
Import Firestore.
Local Open Scope async_scope.
Local Open Scope list_scope.

(** [Omit<InventoryItem, 'id'>] *)
Record ItemData : Type := mkItemData {
  name : string;
  quantity : float;
  unit_ : string;
  category : string;
  expirationDate : option string;
  location : option string;
  notes : option string
}.

(** [interface InventoryItem]: [{ ...data, id }]. *)
Record InventoryItem : Type := mkInventoryItem {
  id : string;
  data : ItemData
}.

(** [filteredInventory] *)
Definition filteredInventory (searchTerm categoryFilter : string)
  (inventory : list InventoryItem) : list InventoryItem :=
  filter
    (fun item =>
       let matchesSearch :=
         JS.includes (JS.toLowerCase (name (data item)))
                     (JS.toLowerCase searchTerm) in
       let matchesCategory :=
         negb (JS.truthy (Some categoryFilter))
         || String.eqb (category (data item)) categoryFilter in
       matchesSearch && matchesCategory)
    inventory.

(** [Array.from(new Set(inventory.map(item => item.category)))] *)
Definition categories (inventory : list InventoryItem) : list string :=
  JSSet.ofArray (map (fun item => category (data item)) inventory).

(** The state of the page. *)
Record View : Type := mkView {
  inventory : list InventoryItem;
  isAddModalOpen : bool;
  isEditModalOpen : bool;
  selectedItem : option InventoryItem
}.

(** The [inventory] collection, the network, the console and the page. *)
Record World : Type := mkWorld {
  inventoryDocs : Collection ItemData;
  net : Net;
  consoleErrors : list string;
  view : View
}.

Definition request : Async World string :=
  fun w =>
    let w' := mkWorld (inventoryDocs w) (tick (net w)) (consoleErrors w)
                      (view w) in
    match oracle (net w) (clock (net w)) with
    | Rejected => (Throw FirestoreError, w')
    | Resolved autoId => (Ok autoId, w')
    end.

Definition consoleError (msg : string) : Async World unit :=
  fun w => (Ok tt, mkWorld (inventoryDocs w) (net w)
                           (consoleErrors w ++ [msg]) (view w)).

Definition readView : Async World View := fun w => (Ok (view w), w).

Definition setView (f : View -> View) : Async World unit :=
  fun w => (Ok tt, mkWorld (inventoryDocs w) (net w) (consoleErrors w)
                           (f (view w))).

Definition setDocs (f : Collection ItemData -> Collection ItemData)
  : Async World unit :=
  fun w => (Ok tt, mkWorld (f (inventoryDocs w)) (net w) (consoleErrors w)
                           (view w)).


(** [addDoc(collection(db, 'inventory'), newItem)] *)
Definition addDoc (newItem : ItemData) : Async World string :=
  newId <- request ;;
  setDocs (fun docs => docs ++ [(newId, newItem)]) ;;;
  ret newId.

(** An optional field of an update: the new value when the update names the
    field, the stored one when it does not. *)
Definition orStored {A} (new stored : option A) : option A :=
  match new with
  | Some x => Some x
  | None => stored
  end.

(** What [updateDoc] leaves in a document: the fields that the update names
    are overwritten, the others are kept.  The four required fields are
    always named; an optional field is named when it is present. *)
Definition mergeFields (stored fields : ItemData) : ItemData :=
  mkItemData (name fields) (quantity fields) (unit_ fields) (category fields)
    (orStored (expirationDate fields) (expirationDate stored))
    (orStored (location fields) (location stored))
    (orStored (notes fields) (notes stored)).

(** [updateDoc(doc(db, 'inventory', itemId), fields)]: rejected when the
    document does not exist. *)
Definition updateDoc (itemId : string) (fields : ItemData)
  : Async World unit :=
  request ;;;
  (fun w =>
     match lookupDoc (inventoryDocs w) itemId with
     | Some _ =>
         setDocs (map (fun d => if String.eqb (fst d) itemId
                                then (fst d, mergeFields (snd d) fields)
                                else d)) w
     | None => (Throw FirestoreError, w)
     end).



(** [handleSaveEdit] *)
Definition handleSaveEdit (editedItem : ItemData) : Async World unit :=
  v <- readView ;;
  match selectedItem v with
  | None => ret tt
  | Some selected =>
      tryCatch
        (updateDoc (id selected) editedItem ;;;
         setView (fun v' =>
           mkView (map (fun item =>
                          if String.eqb (id item) (id selected)
                          then mkInventoryItem (id selected) editedItem
                          else item)
                       (inventory v))
                  (isAddModalOpen v') false None))
        (fun _ => consoleError "Error updating inventory item:")
  end.

End InventoryPage.

(* ================================================================== *)
(** * src/pages/Menu.tsx: selecting the recipes of a menu *)
(* ================================================================== *)

Module RecipeSelectionModal.
Import Menu.
Local Open Scope list_scope.

(** The initial [selectedRecipes] state:
    [new Set(initialSelectedRecipes.map(r => r.id))]. *)
Definition initialSelection (initialSelectedRecipes : list Recipe)
  : list string :=
  JSSet.ofArray (map id initialSelectedRecipes).

(** [categories] *)
Definition categories (availableRecipes : list Recipe) : list string :=
  JSSet.ofArray (map category availableRecipes).

(** [filteredRecipes] *)
Definition filteredRecipes (searchTerm categoryFilter : string)
  (availableRecipes : list Recipe) : list Recipe :=
  filter
    (fun recipe =>
       let matchesSearch :=
         JS.includes (JS.toLowerCase (name recipe)) (JS.toLowerCase searchTerm)
         || JS.includes (JS.toLowerCase (description recipe))
                        (JS.toLowerCase searchTerm) in
       let matchesCategory :=
         negb (JS.truthy (Some categoryFilter))
         || String.eqb (category recipe) categoryFilter in
       matchesSearch && matchesCategory)
    availableRecipes.

(** [handleRecipeToggle]: the new [selectedRecipes]. *)
Definition handleRecipeToggle (selectedRecipes : list string)
  (recipe : Recipe) : list string :=
  let newSelected := selectedRecipes in
  if JSSet.has newSelected (id recipe)
  then JSSet.delete newSelected (id recipe)
  else JSSet.add newSelected (id recipe).

(** [handleSave]: the list handed to [onSave]. *)
Definition handleSave (availableRecipes : list Recipe)
  (selectedRecipes : list string) : list Recipe :=
  filter (fun r => JSSet.has selectedRecipes (id r)) availableRecipes.

End RecipeSelectionModal.

Module MenuPage.
Import Menu.
Local Open Scope list_scope.

(** [getMenuImages]: [menu.recipes.slice(0, maxImages).map(r => r.image)]. *)
Definition getMenuImages (menu : MenuItem) : list string :=
  let maxImages := 4%nat in
  map image (firstn maxImages (recipes menu)).

(** [filteredMenus] *)
Definition filteredMenus (searchTerm mealTypeFilter : string)
  (menus : list MenuItem) : list MenuItem :=
  filter
    (fun menu =>
       let matchesSearch :=
         JS.includes (JS.toLowerCase (menu_name menu)) (JS.toLowerCase searchTerm)
         || JS.includes (JS.toLowerCase (menu_description menu))
                        (JS.toLowerCase searchTerm)
         || existsb (fun recipe =>
                       JS.includes (JS.toLowerCase (name recipe))
                                   (JS.toLowerCase searchTerm))
                    (recipes menu) in
       let matchesMealType :=
         negb (JS.truthy (Some mealTypeFilter))
         || String.eqb (menu_mealType menu) mealTypeFilter in
       matchesSearch && matchesMealType)
    menus.

End MenuPage.

(* ================================================================== *)
(** * src/pages/Recipes.tsx: the rows of the recipe form *)
(* ================================================================== *)

Module RecipeForm.
Local Open Scope list_scope.

(** A JavaScript array is the list of its slots: a slot is a hole or holds
    an element, and an element read from the form state may be
    [undefined]. *)
Inductive Slot (A : Type) : Type :=
| Hole
| Elem (a : option A).
Arguments Hole {A}.
Arguments Elem {A} a.

Definition JSArray (A : Type) : Type := list (Slot A).

(** [[...xs]]: iteration reads a hole as [undefined]. *)
Definition spread {A} (xs : JSArray A) : JSArray A :=
  map (fun s => match s with
                | Hole => Elem None
                | Elem a => Elem a
                end) xs.

(** [xs[index]] *)
Definition at_ {A} (xs : JSArray A) (index : nat) : option A :=
  match nth_error xs index with
  | Some (Elem a) => a
  | _ => None
  end.

(** [xs[index] = v]: an index past the end extends the array with holes. *)
Fixpoint assign {A} (xs : JSArray A) (index : nat) (v : A) : JSArray A :=
  match index, xs with
  | O, [] => [Elem (Some v)]
  | O, _ :: rest => Elem (Some v) :: rest
  | S n, [] => Hole :: assign [] n v
  | S n, x :: rest => x :: assign rest n v
  end.

(** [xs.filter((_, i) => i !== index)], for the slots from position [i]
    on: [filter] skips holes and returns an array without holes. *)
Fixpoint filterOthers {A} (xs : JSArray A) (i index : nat) : JSArray A :=
  match xs with
  | [] => []
  | Hole :: rest => filterOthers rest (S i) index
  | Elem a :: rest =>
      if Nat.eqb i index then filterOthers rest (S i) index
      else Elem a :: filterOthers rest (S i) index
  end.

(** [xs || []] for a possibly undefined array. *)
Definition orEmpty {A} (xs : option (JSArray A)) : JSArray A :=
  match xs with
  | Some l => l
  | None => []
  end.

(** An ingredient row; [{ ...row, [field]: value }] on an undefined row
    gives an object with that field only, so every field may be absent.
    The quantity is the number parsed from the input. *)
Record Row : Type := mkRow {
  row_name : option string;
  row_quantity : option float;
  row_unit : option string
}.

(** A field of a row together with its new value. *)
Inductive FieldValue : Type :=
| NameIs (value : string)
| QuantityIs (value : float)
| UnitIs (value : string).

(** The two arrays of [formData: Partial<Recipe>] that the row handlers
    replace; the other fields are copied unchanged by every handler. *)
Record FormData : Type := mkFormData {
  ingredients : option (JSArray Row);
  instructions : option (JSArray string)
}.

(** [{ ...row, [field]: value }] *)
Definition withField (row : option Row) (fv : FieldValue) : Row :=
  let r := match row with
           | Some r => r
           | None => mkRow None None None
           end in
  match fv with
  | NameIs v => mkRow (Some v) (row_quantity r) (row_unit r)
  | QuantityIs v => mkRow (row_name r) (Some v) (row_unit r)
  | UnitIs v => mkRow (row_name r) (row_quantity r) (Some v)
  end.

(** [handleIngredientChange] *)
Definition handleIngredientChange (formData : FormData) (index : nat)
  (fv : FieldValue) : FormData :=
  let newIngredients := spread (orEmpty (ingredients formData)) in
  let newIngredients :=
    assign newIngredients index (withField (at_ newIngredients index) fv) in
  mkFormData (Some newIngredients) (instructions formData).

(** [addIngredient] *)
Definition addIngredient (formData : FormData) : FormData :=
  mkFormData
    (Some (spread (orEmpty (ingredients formData))
           ++ [Elem (Some (mkRow (Some "") (Some 1%float) (Some "cups")))]))
    (instructions formData).

(** [removeIngredient] *)
Definition removeIngredient (formData : FormData) (index : nat) : FormData :=
  let newIngredients :=
    match ingredients formData with
    | Some l => Some (filterOthers l 0 index)
    | None => None
    end in
  mkFormData newIngredients (instructions formData).

(** [handleInstructionChange] *)
Definition handleInstructionChange (formData : FormData) (index : nat)
  (value : string) : FormData :=
  let newInstructions := spread (orEmpty (instructions formData)) in
  let newInstructions := assign newInstructions index value in
  mkFormData (ingredients formData) (Some newInstructions).

(** [addInstruction] *)
Definition addInstruction (formData : FormData) : FormData :=
  mkFormData (ingredients formData)
    (Some (spread (orEmpty (instructions formData)) ++ [Elem (Some "")])).

(** [removeInstruction] *)
Definition removeInstruction (formData : FormData) (index : nat) : FormData :=
  let newInstructions :=
    match instructions formData with
    | Some l => Some (filterOthers l 0 index)
    | None => None
    end in
  mkFormData (ingredients formData) newInstructions.

End RecipeForm.

(* ================================================================== *)
(** * Facts about the built-ins *)
(* ================================================================== *)

Module JSFacts.
Import JS.

Lemma startsWith_spec (s p : string) :
  startsWith s p = true <-> exists post, s = p ++ post.
Proof.
  revert s; induction p as [|c p IH]; intros s; simpl.
  - split; [intros _; now exists s | reflexivity].
  - destruct s as [|d s].
    + split; [discriminate | intros [post H]; discriminate].
    + rewrite andb_true_iff, Ascii.eqb_eq, IH. split.
      * intros [-> [post ->]]. now exists post.
      * intros [post H]. injection H as -> ->. split; [reflexivity | now exists post].
Qed.

Lemma includes_spec (s t : string) :
  includes s t = true <-> occursIn t s.
Proof.
  unfold occursIn. induction s as [|d s IH].
  - simpl. rewrite orb_false_r, startsWith_spec. split.
    + intros [post H]. exists EmptyString, post. exact H.
    + intros [pre [post H]]. destruct pre; simpl in H.
      * now exists post.
      * discriminate.
  - cbn [includes]. rewrite orb_true_iff, startsWith_spec, IH. split.
    + intros [[post H] | [pre [post H]]].
      * exists EmptyString, post. exact H.
      * exists (String d pre), post. simpl. now rewrite H.
    + intros [pre [post H]]. destruct pre as [|e pre]; simpl in H.
      * left. now exists post.
      * right. injection H as _ H. now exists pre, post.
Qed.

End JSFacts.

(* ================================================================== *)
(** * Recipes: stock status, filter, missing ingredients *)
(* ================================================================== *)

Module RecipesSpec.
Import Firestore Recipes JSFacts.
Local Open Scope list_scope.

(** Some inventory item's name contains [s], case ignored. *)
Definition inStockSpec (inventory : list (option InventoryItem)) (s : string)
  : Prop :=
  exists item n,
    In (Some item) inventory /\ inv_name item = Some n /\ JS.occursInCI s n.

Lemma itemMatches_spec (s : string) (item : option InventoryItem) :
  itemMatches (JS.toLowerCase s) item = true <->
  exists it n, item = Some it /\ inv_name it = Some n /\ JS.occursInCI s n.
Proof.
  unfold itemMatches, JS.occursInCI. destruct item as [it|].
  - destruct (inv_name it) as [n|] eqn:E.
    + rewrite includes_spec. split.
      * intros H. exists it, n. auto.
      * intros (it' & n' & [= <-] & E' & H). congruence.
    + split; [discriminate | intros (it' & n' & [= <-] & E' & _); congruence].
  - split; [discriminate | intros (it' & n' & [=] & _)].
Qed.

Lemma checkIngredientInStock_nonempty (inventory : list (option InventoryItem))
  (c : ascii) (s : string) :
  checkIngredientInStock inventory (Some (String c s)) = true <->
  inStockSpec inventory (String c s).
Proof.
  unfold checkIngredientInStock, inStockSpec. rewrite existsb_exists. split.
  - intros (item & Hin & Hm). apply itemMatches_spec in Hm.
    destruct Hm as (it & n & -> & Hn & Hocc). exists it, n. auto.
  - intros (it & n & Hin & Hn & Hocc). exists (Some it). split; [exact Hin|].
    apply itemMatches_spec. exists it, n. auto.
Qed.

(** The guard [ingredient?.name &&] adds nothing: an absent or empty name is
    already refused by [checkIngredientInStock]. *)
Lemma ingredientInStock_check (inventory : list (option InventoryItem))
  (i : option Ingredient) :
  ingredientInStock inventory i = checkIngredientInStock inventory (nameOf i).
Proof.
  unfold ingredientInStock. destruct (nameOf i) as [[|c s]|]; reflexivity.
Qed.

(** ** The filter, in the words of its description *)

Definition searchHit (term : string) (r : Recipe) : Prop :=
  JS.occursInCI term (name r) \/
  JS.occursInCI term (description r) \/
  JS.occursInCI term (cuisine r) \/
  exists ings i n,
    ingredients r = Some ings /\ In i ings /\ nameOf i = Some n /\
    JS.occursInCI term n.

Definition passesSpec (fs : FilterState)
  (inventory : list (option InventoryItem)) (r : Recipe) : Prop :=
  searchHit (searchTerm fs) r /\
  (categoryFilter fs = "" \/ category r = categoryFilter fs) /\
  (showOnlyInStock fs = false \/ hasAllIngredientsInStock inventory r = true).

Lemma ingredientMatchesSearch_spec (term : string) (i : option Ingredient) :
  ingredientMatchesSearch term i = true <->
  exists n, nameOf i = Some n /\ JS.occursInCI term n.
Proof.
  unfold ingredientMatchesSearch, JS.occursInCI.
  destruct (nameOf i) as [n|].
  - rewrite includes_spec. split.
    + intros H. now exists n.
    + intros (n' & [= <-] & H). exact H.
  - split; [discriminate | intros (n' & [=] & _)].
Qed.

Lemma matchesSearch_true (fs : FilterState) (r : Recipe) :
  matchesSearch fs r = Ok true <-> searchHit (searchTerm fs) r.
Proof.
  unfold matchesSearch, searchHit, JS.occursInCI.
  rewrite <- !includes_spec.
  destruct (JS.includes (JS.toLowerCase (name r)) _); [tauto|].
  destruct (JS.includes (JS.toLowerCase (description r)) _); [tauto|].
  destruct (JS.includes (JS.toLowerCase (cuisine r)) _); [tauto|].
  destruct (ingredients r) as [ings|].
  - split.
    + intros [= H]. apply existsb_exists in H. destruct H as (i & Hin & Hm).
      apply ingredientMatchesSearch_spec in Hm. destruct Hm as (n & Hn & Ho).
      right; right; right. exists ings, i, n. auto.
    + intros [H|[H|[H|H]]]; try discriminate.
      destruct H as (ings' & i & n & [= <-] & Hin & Hn & Ho).
      f_equal. apply existsb_exists. exists i. split; [exact Hin|].
      apply ingredientMatchesSearch_spec. now exists n.
  - split; [discriminate|].
    intros [H|[H|[H|H]]]; try discriminate.
    destruct H as (ings' & i & n & [=] & _).
Qed.

Lemma matchesCategory_spec (fs : FilterState) (r : Recipe) :
  matchesCategory fs r = true <->
  categoryFilter fs = "" \/ category r = categoryFilter fs.
Proof.
  unfold matchesCategory. rewrite orb_true_iff, String.eqb_eq.
  destruct (categoryFilter fs) as [|c s]; simpl.
  - tauto.
  - split; intros [H|H]; try discriminate; auto.
Qed.

Lemma matchesStock_spec (fs : FilterState)
  (inventory : list (option InventoryItem)) (r : Recipe) :
  matchesStock fs inventory r = true <->
  showOnlyInStock fs = false \/ hasAllIngredientsInStock inventory r = true.
Proof.
  unfold matchesStock. rewrite orb_true_iff, negb_true_iff. tauto.
Qed.

(** ** Facts about the add-missing-ingredients loop *)

(** The ingredients of a list that fail the stock check, in order. *)
Definition missingOf (inventory : list (option InventoryItem))
  (ings : list Ingredient) : list Ingredient :=
  filter (fun i => negb (checkIngredientInStock inventory (ing_name i))) ings.

Lemma filterMissing_present (inventory : list (option InventoryItem))
  (ings : list Ingredient) :
  filterMissing inventory (map Some ings) = Ok (missingOf inventory ings).
Proof.
  induction ings as [|i ings IH]; simpl; [reflexivity|].
  rewrite IH. reflexivity.
Qed.

(** What a stored document says, without its identifier. *)
Definition payload (d : string * (string * ShoppingItemData))
  : string * ShoppingItemData :=
  (fst d, snd (snd d)).

(** The ingredient has a name: the document written for it has no
    [undefined] field. *)
Definition hasName (i : Ingredient) : bool :=
  match ing_name i with
  | Some _ => true
  | None => false
  end.

Lemma addDoc_named (listId : string) (i : Ingredient) (w : World) :
  hasName i = true ->
  addDoc listId (newShoppingItem i) w =
    match oracle (net w) (clock (net w)) with
    | Rejected =>
        (Throw FirestoreError,
         mkWorld (itemDocs w) (tick (net w)) (alerts w) (consoleErrors w))
    | Resolved newId =>
        (Ok newId,
         mkWorld (itemDocs w ++ [(listId, (newId, newShoppingItem i))])
                 (tick (net w)) (alerts w) (consoleErrors w))
    end.
Proof.
  unfold hasName, addDoc. cbn [newShoppingItem si_name].
  destruct (ing_name i); [reflexivity | discriminate].
Qed.

Lemma addDoc_nameless (listId : string) (i : Ingredient) (w : World) :
  hasName i = false ->
  addDoc listId (newShoppingItem i) w = (Throw FirestoreError, w).
Proof.
  unfold hasName, addDoc. cbn [newShoppingItem si_name].
  destruct (ing_name i); [discriminate | reflexivity].
Qed.


(** **** C4 *)

(** C4.  [checkIngredientInStock] answers [false] for an undefined and for
    an empty ingredient name, and for every other name it answers [true]
    exactly when some inventory item's name contains the ingredient name as
    a substring, case ignored. *)
Theorem C4_checkIngredientInStock_substring
  (inventory : list (option InventoryItem)) :
  checkIngredientInStock inventory None = false /\
  checkIngredientInStock inventory (Some "") = false /\
  forall c s,
    checkIngredientInStock inventory (Some (String c s)) = true <->
    inStockSpec inventory (String c s).
Proof.
  split; [reflexivity|]. split; [reflexivity|].
  intros c s. apply checkIngredientInStock_nonempty.
Qed.

(** **** C1 *)

Definition emptyRecipe : Recipe :=
  mkRecipe "r0" "Water" "" "" "" "" "" (Some []) [].

(** C1, as stated, fails: a recipe whose ingredient list is the empty array
    is reported fully in stock ([[].every(...)] is [true]). *)
Lemma C1_empty_ingredients_in_stock :
  ingredients emptyRecipe = Some [] /\
  hasAllIngredientsInStock [] emptyRecipe = true.
Proof. split; reflexivity. Qed.

(** C1, amended.  [hasAllIngredientsInStock] returns [true] exactly when the
    recipe's ingredient array is defined (it may be empty) and every
    ingredient satisfies [checkIngredientInStock]; in particular it returns
    [false] when the array is undefined and [true] when it is empty. *)
Theorem C1_hasAllIngredientsInStock_defined_and_all
  (inventory : list (option InventoryItem)) (recipe : Recipe) :
  (hasAllIngredientsInStock inventory recipe = true <->
   exists ings,
     ingredients recipe = Some ings /\
     Forall (fun i => checkIngredientInStock inventory (nameOf i) = true) ings)
  /\ (ingredients recipe = None ->
      hasAllIngredientsInStock inventory recipe = false)
  /\ (ingredients recipe = Some [] ->
      hasAllIngredientsInStock inventory recipe = true).
Proof.
  unfold hasAllIngredientsInStock. split; [|split].
  - destruct (ingredients recipe) as [ings|].
    + rewrite forallb_forall. split.
      * intros H. exists ings. split; [reflexivity|].
        apply Forall_forall. intros i Hi.
        rewrite <- ingredientInStock_check. auto.
      * intros (ings' & [= <-] & H) i Hi.
        rewrite ingredientInStock_check.
        rewrite Forall_forall in H. auto.
    + split; [discriminate | intros (ings' & [=] & _)].
  - intros ->. reflexivity.
  - intros ->. reflexivity.
Qed.

(** **** C9 *)

Lemma recipePasses_true (fs : FilterState)
  (inventory : list (option InventoryItem)) (r : Recipe) :
  recipePasses fs inventory r = Ok true <-> passesSpec fs inventory r.
Proof.
  unfold recipePasses, passesSpec.
  rewrite <- matchesSearch_true, <- matchesCategory_spec, <- matchesStock_spec.
  destruct (matchesSearch fs r) as [[|]|e];
    destruct (matchesCategory fs r), (matchesStock fs inventory r);
    cbn; intuition congruence.
Qed.

Lemma recipePasses_total (fs : FilterState)
  (inventory : list (option InventoryItem)) (r : Recipe) :
  ingredients r <> None -> exists b, recipePasses fs inventory r = Ok b.
Proof.
  intros Hi. unfold recipePasses, matchesSearch.
  destruct (ingredients r) as [ings|]; [|congruence].
  repeat match goal with |- context [if ?c then _ else _] => destruct c end;
    eexists; reflexivity.
Qed.

Lemma filteredRecipes_In (fs : FilterState)
  (inventory : list (option InventoryItem)) (recipes : list Recipe) :
  forall kept,
    filteredRecipes fs inventory recipes = Ok kept ->
    forall r, In r kept <-> In r recipes /\ passesSpec fs inventory r.
Proof.
  induction recipes as [|x recipes IH]; cbn [filteredRecipes]; intros kept H r.
  - injection H as <-. cbn. tauto.
  - destruct (recipePasses fs inventory x) as [b|e] eqn:Ex; [|discriminate].
    destruct (filteredRecipes fs inventory recipes) as [kept'|e];
      [|discriminate].
    injection H as <-. specialize (IH kept' eq_refl r).
    assert (Hx : b = true <-> passesSpec fs inventory x).
    { rewrite <- recipePasses_true, Ex. split; congruence. }
    destruct b; cbn [In]; rewrite IH; split.
    + intros [<- | [H1 H2]]; [split; [now left | now apply Hx] | tauto].
    + intros [[<- | H1] H2]; [now left | right; tauto].
    + intros [H1 H2]. tauto.
    + intros [[<- | H1] H2]; [|tauto].
      apply Hx in H2. discriminate.
Qed.

Lemma filteredRecipes_total (fs : FilterState)
  (inventory : list (option InventoryItem)) (recipes : list Recipe) :
  Forall (fun r => ingredients r <> None) recipes ->
  exists kept, filteredRecipes fs inventory recipes = Ok kept.
Proof.
  induction 1 as [|x recipes Hx _ IH]; cbn [filteredRecipes].
  - now exists [].
  - destruct (recipePasses_total fs inventory x Hx) as [b ->].
    destruct IH as [kept ->]. eexists. reflexivity.
Qed.

(** C9.  A recipe passes the filter of the Recipes view exactly when the
    search term occurs, case ignored, in its name, description, cuisine or
    the name of one of its ingredients, and the category filter is empty or
    equal to the recipe's category, and the stock toggle is off or
    [hasAllIngredientsInStock] holds.  The filtered list holds exactly the
    recipes that pass, and the filter returns a list whenever every recipe
    has its ingredient array. *)
Theorem C9_recipe_filter_is_conjunction (fs : FilterState)
  (inventory : list (option InventoryItem)) (recipes : list Recipe) :
  (forall r, recipePasses fs inventory r = Ok true <->
             passesSpec fs inventory r) /\
  (forall kept,
     filteredRecipes fs inventory recipes = Ok kept ->
     forall r, In r kept <-> In r recipes /\ passesSpec fs inventory r) /\
  (Forall (fun r => ingredients r <> None) recipes ->
   exists kept, filteredRecipes fs inventory recipes = Ok kept).
Proof.
  split; [|split].
  - intros r. apply recipePasses_true.
  - apply filteredRecipes_In.
  - apply filteredRecipes_total.
Qed.

(** A search for "TOMATO" in the category "Main": the salad matches by an
    ingredient, the cake does not match the search, the soup is of another
    category. *)
Example filter_example :
  let ing n := Some (mkIngredient (Some n) "g") in
  let salad := mkRecipe "1" "Salad" "fresh" "Greek" "Main" "" ""
                 (Some [ing "Tomatoes"; ing "Feta"]) [] in
  let cake := mkRecipe "2" "Cake" "sweet" "French" "Main" "" ""
                (Some [ing "Flour"]) [] in
  let soup := mkRecipe "3" "Tomato soup" "warm" "Italian" "Starter" "" ""
                (Some [ing "Tomatoes"]) [] in
  filteredRecipes (mkFilterState "TOMATO" "Main" false) []
                  [salad; cake; soup]
    = Ok [salad].
Proof. reflexivity. Qed.

(** **** C5 *)



Definition pantry : list (option InventoryItem) :=
  [Some (mkInventoryItem "i1" (Some "Wheat flour") "kg")].

Definition emptyStore : World :=
  mkWorld [] (mkNet 0 (fun _ => Resolved "item-1")) [] [].


(** An ingredient whose name is [undefined] stops the loop: the client
    refuses the document, so of Salt, a nameless ingredient and Sumac only
    Salt is stored; the error is logged, no alert is shown, and one request
    was sent. *)
Example C5_nameless_ingredient_stops_the_loop :
  handleAddMissingIngredients (Some (mkShoppingList "L" "Groceries")) []
    (mkRecipe "r2" "Rub" "" "" "" "" ""
       (Some [Some (mkIngredient (Some "Salt") "g");
              Some (mkIngredient None "g");
              Some (mkIngredient (Some "Sumac") "g")]) [])
    emptyStore
  = (Ok tt,
     mkWorld
       [("L", ("item-1",
               mkShoppingItemData (Some "Salt") "Ingredients" false []))]
       (mkNet 1 (fun _ => Resolved "item-1")) []
       ["Error adding missing ingredients:"]).
Proof. reflexivity. Qed.

End RecipesSpec.

(* ================================================================== *)
(** * Inventory: expiration status *)
(* ================================================================== *)

Module InventorySpec.
Import Inventory.
Local Open Scope Z_scope.

(** The date is present (a non-empty string) and parses to instant [t]. *)
Definition parsesTo (parse : string -> option Z) (date : option string)
  (t : Z) : Prop :=
  exists s, date = Some s /\ s <> "" /\ parse s = Some t.

Lemma isExpired_parsed (parse : string -> option Z) (now : Z)
  (date : option string) (t : Z) :
  parsesTo parse date t -> isExpired parse now date = (t <? now).
Proof.
  intros (s & -> & Hs & Hp). unfold isExpired.
  destruct s as [|c s]; [congruence|]. simpl. now rewrite Hp.
Qed.

Lemma isExpiringSoon_parsed (parse : string -> option Z) (now : Z)
  (date : option string) (t : Z) :
  parsesTo parse date t ->
  isExpiringSoon parse now date =
    (((t - now) / JS.msPerDay <=? 7) && ((t - now) / JS.msPerDay >=? 0)).
Proof.
  intros (s & -> & Hs & Hp). unfold isExpiringSoon.
  destruct s as [|c s]; [congruence|]. simpl. now rewrite Hp.
Qed.

Lemma parsed_or_not (parse : string -> option Z) (date : option string) :
  (exists t, parsesTo parse date t) \/
  (forall t, ~ parsesTo parse date t) /\
  forall now, isExpired parse now date = false /\
              isExpiringSoon parse now date = false.
Proof.
  unfold parsesTo, isExpired, isExpiringSoon.
  destruct date as [[|c s]|].
  - right. split; [intros t (s' & [= <-] & H & _); congruence | auto].
  - destruct (parse (String c s)) as [t|] eqn:E.
    + left. exists t, (String c s). repeat split; [discriminate | exact E].
    + right. split; [|simpl; auto].
      intros t (s' & [= <-] & _ & H). congruence.
  - right. split; [intros t (s' & [=] & _) | auto].
Qed.

Lemma isExpired_iff (parse : string -> option Z) (now : Z)
  (date : option string) :
  isExpired parse now date = true <->
  exists t, parsesTo parse date t /\ t < now.
Proof.
  destruct (parsed_or_not parse date) as [[t Ht] | [Hno Hf]].
  - rewrite (isExpired_parsed _ _ _ _ Ht), Z.ltb_lt. split.
    + intros H. now exists t.
    + intros (t' & (s' & E1 & _ & P1) & Hlt).
      destruct Ht as (s & E & _ & P). congruence.
  - destruct (Hf now) as [-> _]. split; [discriminate|].
    intros (t & Ht & _). now apply Hno in Ht.
Qed.

Lemma isExpiringSoon_iff (parse : string -> option Z) (now : Z)
  (date : option string) :
  isExpiringSoon parse now date = true <->
  exists t, parsesTo parse date t /\ 0 <= (t - now) / JS.msPerDay <= 7.
Proof.
  destruct (parsed_or_not parse date) as [[t Ht] | [Hno Hf]].
  - rewrite (isExpiringSoon_parsed _ _ _ _ Ht), andb_true_iff, Z.leb_le, Z.geb_le.
    split.
    + intros H. exists t. split; [exact Ht | lia].
    + intros (t' & (s' & E1 & _ & P1) & Hr).
      destruct Ht as (s & E & _ & P).
      assert (t' = t) by congruence. subst t'. lia.
  - destruct (Hf now) as [_ ->]. split; [discriminate|].
    intros (t & Ht & _). now apply Hno in Ht.
Qed.

(** The whole-day difference of an instant [k] days and [r] milliseconds
    (less than a day) after [now]. *)
Lemma whole_days (now k r : Z) :
  0 <= r < JS.msPerDay ->
  (now + k * JS.msPerDay + r - now) / JS.msPerDay = k.
Proof.
  intros Hr. replace (now + k * JS.msPerDay + r - now)
    with (r + k * JS.msPerDay) by ring.
  rewrite Z.div_add by (unfold JS.msPerDay; lia).
  rewrite Z.div_small by exact Hr. reflexivity.
Qed.

(** An expired date is never "expiring soon": the two predicates exclude
    each other, so the rendered status is well defined. *)
Lemma expired_not_soon (parse : string -> option Z) (now : Z)
  (date : option string) :
  isExpired parse now date = true -> isExpiringSoon parse now date = false.
Proof.
  intros H. apply isExpired_iff in H. destruct H as (t & Ht & Hlt).
  rewrite (isExpiringSoon_parsed _ _ _ _ Ht).
  assert ((t - now) / JS.msPerDay < 0).
  { apply Z.div_lt_upper_bound; unfold JS.msPerDay; lia. }
  apply andb_false_iff. right. rewrite Z.geb_leb. apply Z.leb_gt. lia.
Qed.

(** **** C3 *)

Definition noon_2024_01_15 : Z := 1705320000000.

(** C3, as stated, fails for calendar dates.  At noon UTC of 2024-01-15 the
    date "2024-01-15" (today) is expired and not expiring soon, and the date
    "2024-01-23" (today + 8) is expiring soon. *)
Lemma C3_today_is_expired_at_noon :
  JS.dateOnlyTime "2024-01-15" = Some (noon_2024_01_15 - 12 * 60 * 60 * 1000) /\
  expirationStatus JS.dateOnlyTime noon_2024_01_15 (Some "2024-01-15")
    = expired /\
  isExpiringSoon JS.dateOnlyTime noon_2024_01_15 (Some "2024-01-15") = false /\
  expirationStatus JS.dateOnlyTime noon_2024_01_15 (Some "2024-01-23")
    = expiringSoon.
Proof. repeat split; vm_compute; reflexivity. Qed.

(** C3, amended.  Dates are compared as instants.  The status is [none] when
    no date is present; [expired] exactly when the date's instant is
    strictly before the current instant; [expiringSoon] exactly when the
    floor of (date - now) in whole days is between 0 and 7.  In particular
    an instant equal to the current one is expiring soon and not expired,
    the current instant plus 7 days is expiring soon, plus 8 days is none,
    minus one day is expired.  A calendar date is midnight UTC of its day,
    so once the current instant is past midnight UTC, today's date is
    expired and the date 8 days ahead is still expiring soon. *)
Theorem C3_expiration_status_on_instants (parse : string -> option Z)
  (now : Z) (date : option string) :
  (JS.truthy date = false -> expirationStatus parse now date = none) /\
  (expirationStatus parse now date = expired <->
     exists t, parsesTo parse date t /\ t < now) /\
  (expirationStatus parse now date = expiringSoon <->
     exists t, parsesTo parse date t /\ 0 <= (t - now) / JS.msPerDay <= 7) /\
  (forall t, parsesTo parse date t ->
     (t = now ->
        expirationStatus parse now date = expiringSoon /\
        isExpired parse now date = false) /\
     (t = now + 7 * JS.msPerDay ->
        expirationStatus parse now date = expiringSoon) /\
     (t = now + 8 * JS.msPerDay ->
        expirationStatus parse now date = none) /\
     (t = now - JS.msPerDay ->
        expirationStatus parse now date = expired) /\
     (forall r, 0 < r < JS.msPerDay ->
        (t = now - r ->
           expirationStatus parse now date = expired) /\
        (t = now - r + 8 * JS.msPerDay ->
           expirationStatus parse now date = expiringSoon))).
Proof.
  split; [|split; [|split]].
  - intros H. unfold expirationStatus, isExpired, isExpiringSoon.
    rewrite H. reflexivity.
  - rewrite <- isExpired_iff. unfold expirationStatus.
    destruct (isExpired parse now date); [tauto|].
    destruct (isExpiringSoon parse now date); split; discriminate.
  - rewrite <- isExpiringSoon_iff. unfold expirationStatus.
    destruct (isExpired parse now date) eqn:E.
    + rewrite (expired_not_soon _ _ _ E). split; discriminate.
    + destruct (isExpiringSoon parse now date); split; congruence.
  - intros t Ht. unfold expirationStatus.
    rewrite (isExpired_parsed _ _ _ _ Ht), (isExpiringSoon_parsed _ _ _ _ Ht).
    assert (Hd : 0 < JS.msPerDay) by (unfold JS.msPerDay; lia).
    split; [|split; [|split; [|split]]].
    + intros ->. rewrite Z.ltb_irrefl, Z.sub_diag. split; reflexivity.
    + intros ->.
      replace (now + 7 * JS.msPerDay) with (now + 7 * JS.msPerDay + 0) by ring.
      rewrite whole_days by lia.
      replace (_ <? now) with false by (symmetry; apply Z.ltb_ge; lia).
      reflexivity.
    + intros ->.
      replace (now + 8 * JS.msPerDay) with (now + 8 * JS.msPerDay + 0) by ring.
      rewrite whole_days by lia.
      replace (_ <? now) with false by (symmetry; apply Z.ltb_ge; lia).
      reflexivity.
    + intros ->. replace (now - JS.msPerDay <? now) with true
        by (symmetry; apply Z.ltb_lt; lia). reflexivity.
    + intros r Hr. split.
      * intros ->. replace (now - r <? now) with true
          by (symmetry; apply Z.ltb_lt; lia). reflexivity.
      * intros ->.
        replace (now - r + 8 * JS.msPerDay)
          with (now + 7 * JS.msPerDay + (JS.msPerDay - r)) by ring.
        rewrite whole_days by lia.
        replace (_ <? now) with false by (symmetry; apply Z.ltb_ge; lia).
        reflexivity.
Qed.

End InventorySpec.

(* ================================================================== *)
(** * Menu: aggregate preparation and cooking time *)
(* ================================================================== *)

Module MenuSpec.
Import Menu.
Local Open Scope Z_scope.

(** What one duration string contributes to a total. *)
Definition minutes (s : string) : JS.Number := JS.orZero (JS.parseInt s).

Definition sumZ (l : list Z) : Z := fold_right Z.add 0 l.

(** The contributions added from left to right, each addition rounded to a
    double. *)
Definition sumDoubles (ns : list JS.Number) : JS.Number :=
  fold_left JS.add ns (JS.Num 0).

Definition isFinite (n : JS.Number) : bool :=
  match n with
  | JS.Num _ => true
  | _ => false
  end.

(** The integer that a finite Number holds. *)
Definition valueOf (n : JS.Number) : Z :=
  match n with
  | JS.Num z => z
  | _ => 0
  end.

(** The contributions are finite and their magnitudes add up to at most
    2^53: no sum of some of them needs rounding. *)
Definition withinExactRange (ns : list JS.Number) : Prop :=
  forallb isFinite ns = true /\
  sumZ (map (fun n => Z.abs (valueOf n)) ns) <= 2 ^ 53.

(** Every character of [s] satisfies [p]. *)
Fixpoint allChars (p : ascii -> bool) (s : string) : bool :=
  match s with
  | EmptyString => true
  | String c s' => p c && allChars p s'
  end.

(** [s] is not empty and its first character satisfies [p]. *)
Definition headIs (p : ascii -> bool) (s : string) : bool :=
  match s with
  | EmptyString => false
  | String c _ => p c
  end.

Definition isDigitIn (radix : Z) (c : ascii) : bool :=
  match JS.radixDigit radix c with
  | Some _ => true
  | None => false
  end.

Definition digitValue (radix : Z) (c : ascii) : Z :=
  match JS.radixDigit radix c with
  | Some d => d
  | None => 0
  end.

(** Positional value of a run of digits, most significant first. *)
Fixpoint valueIn (radix : Z) (ds : string) : Z :=
  match ds with
  | EmptyString => 0
  | String c r =>
      digitValue radix c * radix ^ Z.of_nat (String.length r)
      + valueIn radix r
  end.

Inductive Sign : Type := NoSign | Plus | Minus.

Definition signText (sg : Sign) : string :=
  match sg with
  | NoSign => ""
  | Plus => "+"
  | Minus => "-"
  end.

Definition signValue (sg : Sign) : Z :=
  match sg with
  | Minus => -1
  | _ => 1
  end.

Definition isSignChar (c : ascii) : bool :=
  Ascii.eqb c "-" || Ascii.eqb c "+".

Definition hexPrefix (s : string) : bool :=
  JS.startsWith s "0x" || JS.startsWith s "0X".

Definition hexPrefixText (upper : bool) : string :=
  if upper then "0X" else "0x".

(** *** Doubles that hold integers *)

(** Up to 2^53 every integer is a double. *)
Lemma roundToDouble_exact (z : Z) :
  Z.abs z <= 2 ^ 53 -> JS.roundToDouble z = JS.Num z.
Proof.
  intros H. unfold JS.roundToDouble.
  destruct (Z.ltb_spec (Z.abs z) (2 ^ 53)) as [_|Hge]; [reflexivity|].
  assert (Hz : z = 2 ^ 53 \/ z = - 2 ^ 53) by lia.
  destruct Hz as [-> | ->]; reflexivity.
Qed.

Lemma orZero_Num (z : Z) : JS.orZero (JS.Num z) = JS.Num z.
Proof.
  unfold JS.orZero. destruct (Z.eqb_spec z 0) as [->|_]; reflexivity.
Qed.

Lemma sumZ_app (l1 l2 : list Z) : sumZ (l1 ++ l2) = sumZ l1 + sumZ l2.
Proof. unfold sumZ. induction l1 as [|x l1 IH]; cbn; lia. Qed.

Lemma sumZ_abs_nonneg {A} (f : A -> Z) (l : list A) :
  0 <= sumZ (map (fun x => Z.abs (f x)) l).
Proof. unfold sumZ. induction l as [|x l IH]; cbn; lia. Qed.

Lemma sumZ_abs_bound {A} (f : A -> Z) (l : list A) :
  Z.abs (sumZ (map f l)) <= sumZ (map (fun x => Z.abs (f x)) l).
Proof. unfold sumZ. induction l as [|x l IH]; cbn; lia. Qed.

(** Within the exact range the additions from the left never round. *)
Lemma fold_add_exact (ns : list JS.Number) (a : Z) :
  forallb isFinite ns = true ->
  Z.abs a + sumZ (map (fun n => Z.abs (valueOf n)) ns) <= 2 ^ 53 ->
  fold_left JS.add ns (JS.Num a) = JS.Num (a + sumZ (map valueOf ns)).
Proof.
  revert a. induction ns as [|n ns IH]; intros a Hfin Hsum.
  - cbn. f_equal. lia.
  - cbn [forallb] in Hfin. apply andb_true_iff in Hfin.
    destruct Hfin as [Hn Hns].
    destruct n as [z| | |]; try discriminate Hn.
    assert (H0 := sumZ_abs_nonneg valueOf ns).
    cbn [map valueOf] in Hsum |- *.
    change (sumZ (?x :: ?l)) with (x + sumZ l) in Hsum |- *.
    cbn [fold_left JS.add].
    rewrite roundToDouble_exact by lia.
    rewrite IH; [f_equal; lia | exact Hns | lia].
Qed.

Lemma sumDoubles_exact (ns : list JS.Number) :
  withinExactRange ns -> sumDoubles ns = JS.Num (sumZ (map valueOf ns)).
Proof.
  intros [Hfin Hsum]. unfold sumDoubles.
  rewrite fold_add_exact; [reflexivity | exact Hfin | cbn; lia].
Qed.

Lemma fold_left_contributions {A} (g : A -> JS.Number) (l : list A)
  (a : JS.Number) :
  fold_left (fun total x => JS.add total (g x)) l a
    = fold_left JS.add (map g l) a.
Proof.
  revert a. induction l as [|x l IH]; intros a; cbn; [reflexivity|apply IH].
Qed.

Lemma totalPrepTime_sumDoubles (menu : MenuItem) :
  totalPrepTime menu
    = sumDoubles (map (fun r => minutes (prepTime r)) (recipes menu)).
Proof.
  unfold totalPrepTime, sumDoubles.
  apply (fold_left_contributions (fun r => minutes (prepTime r))).
Qed.

Lemma totalCookTime_sumDoubles (menu : MenuItem) :
  totalCookTime menu
    = sumDoubles (map (fun r => minutes (cookTime r)) (recipes menu)).
Proof.
  unfold totalCookTime, sumDoubles.
  apply (fold_left_contributions (fun r => minutes (cookTime r))).
Qed.

(** *** The text that [parseInt] reads *)

Lemma trimStart_skip (ws s : string) :
  allChars JS.isWhiteSpace ws = true ->
  JS.trimStart (ws ++ s) = JS.trimStart s.
Proof.
  induction ws as [|c ws IH]; simpl; [reflexivity|].
  intros H. apply andb_true_iff in H. destruct H as [Hc Hws].
  rewrite Hc. auto.
Qed.

Lemma trimStart_stop (s : string) :
  headIs JS.isWhiteSpace s = false -> JS.trimStart s = s.
Proof.
  destruct s as [|c s]; simpl; [reflexivity|]. now intros ->.
Qed.

(** A decimal digit is neither white space nor a sign, and a hexadecimal
    prefix starts with the decimal digit 0. *)
Lemma decimal_digit_plain (c : ascii) :
  isDigitIn 10 c = true ->
  JS.isWhiteSpace c = false /\ isSignChar c = false.
Proof.
  destruct c as [b0 b1 b2 b3 b4 b5 b6 b7].
  destruct b0, b1, b2, b3, b4, b5, b6, b7; vm_compute;
    intros H; try discriminate H; split; reflexivity.
Qed.

Lemma zero_is_decimal (c : ascii) :
  Ascii.eqb c "0" = true -> isDigitIn 10 c = true.
Proof. intros H. apply Ascii.eqb_eq in H. subst c. reflexivity. Qed.

Lemma digitOf_nonneg (c : ascii) (d : Z) : JS.digitOf c = Some d -> 0 <= d.
Proof.
  destruct c as [b0 b1 b2 b3 b4 b5 b6 b7].
  destruct b0, b1, b2, b3, b4, b5, b6, b7; vm_compute;
    intros H; try discriminate H; injection H as <-; discriminate.
Qed.

Lemma digitValue_nonneg (radix : Z) (c : ascii) : 0 <= digitValue radix c.
Proof.
  unfold digitValue, JS.radixDigit.
  destruct (JS.digitOf c) as [d|] eqn:E; [|lia].
  apply digitOf_nonneg in E. destruct (d <? radix); lia.
Qed.

Lemma valueIn_nonneg (radix : Z) (ds : string) :
  0 <= radix -> 0 <= valueIn radix ds.
Proof.
  intros Hr. induction ds as [|c r IH]; cbn [valueIn]; [lia|].
  assert (H1 := digitValue_nonneg radix c).
  assert (H2 : 0 <= radix ^ Z.of_nat (String.length r))
    by (apply Z.pow_nonneg; exact Hr).
  nia.
Qed.

Lemma readDigits_run (radix : Z) (ds rest : string) :
  allChars (isDigitIn radix) ds = true ->
  headIs (isDigitIn radix) rest = false ->
  forall acc seen,
    JS.readDigits radix (ds ++ rest) acc seen =
      if seen || negb (String.eqb ds "")
      then Some (acc * radix ^ Z.of_nat (String.length ds) + valueIn radix ds)
      else None.
Proof.
  intros Hds Hrest. induction ds as [|c r IH]; intros acc seen.
  - cbn [append String.length valueIn String.eqb negb]. rewrite orb_false_r.
    replace (acc * radix ^ Z.of_nat 0 + 0) with acc by (simpl; lia).
    destruct rest as [|d rest]; [reflexivity|].
    cbn [JS.readDigits]. unfold headIs, isDigitIn in Hrest.
    destruct (JS.radixDigit radix d); [discriminate | reflexivity].
  - cbn [allChars] in Hds. apply andb_true_iff in Hds. destruct Hds as [Hc Hr].
    cbn [append JS.readDigits]. unfold isDigitIn in Hc.
    destruct (JS.radixDigit radix c) as [d|] eqn:E; [|discriminate].
    rewrite (IH Hr). cbn [orb String.eqb negb valueIn String.length].
    rewrite orb_true_r. f_equal.
    rewrite Nat2Z.inj_succ, Z.pow_succ_r by lia.
    unfold digitValue. rewrite E. ring.
Qed.

Lemma readDigits_none (radix : Z) (rest : string) :
  headIs (isDigitIn radix) rest = false ->
  JS.readDigits radix rest 0 false = None.
Proof.
  intros H. exact (readDigits_run radix "" rest eq_refl H 0 false).
Qed.

(** What [parseInt] does once the white space is gone. *)
Definition afterTrim (s1 : string) : JS.Number :=
  let '(sign, s2) :=
    match s1 with
    | String c r =>
        if Ascii.eqb c "-" then (-1, r)
        else if Ascii.eqb c "+" then (1, r)
        else (1, s1)
    | EmptyString => (1, s1)
    end in
  let '(radix, s3) :=
    if hexPrefix s2 then (16, JS.dropTwo s2) else (10, s2) in
  match JS.readDigits radix s3 0 false with
  | Some v => JS.roundToDouble (sign * v)
  | None => JS.NotANumber
  end.

Lemma parseInt_afterTrim (s : string) :
  JS.parseInt s = afterTrim (JS.trimStart s).
Proof. reflexivity. Qed.

(** After an optional sign the rest is handed over unchanged, provided that
    an unsigned rest does not itself start with a sign. *)
Lemma afterTrim_sign (sg : Sign) (body : string) :
  (sg = NoSign -> headIs isSignChar body = false) ->
  afterTrim (signText sg ++ body) =
    let '(radix, s3) :=
      if hexPrefix body then (16, JS.dropTwo body) else (10, body) in
    match JS.readDigits radix s3 0 false with
    | Some v => JS.roundToDouble (signValue sg * v)
    | None => JS.NotANumber
    end.
Proof.
  intros H. destruct sg; try reflexivity.
  specialize (H eq_refl). cbn [signText append signValue]. unfold afterTrim.
  destruct body as [|c r]; [reflexivity|].
  cbn [headIs] in H. unfold isSignChar in H.
  apply orb_false_iff in H. destruct H as [-> ->]. reflexivity.
Qed.

Lemma trimmed_text (ws : string) (sg : Sign) (body : string) :
  allChars JS.isWhiteSpace ws = true ->
  (sg = NoSign -> headIs JS.isWhiteSpace body = false) ->
  JS.trimStart (ws ++ signText sg ++ body) = signText sg ++ body.
Proof.
  intros Hws H. rewrite trimStart_skip by exact Hws.
  apply trimStart_stop. destruct sg; auto.
Qed.

Lemma not_digit_no_hexPrefix (body : string) :
  headIs (isDigitIn 10) body = false -> hexPrefix body = false.
Proof.
  destruct body as [|c r]; [reflexivity|]. cbn [headIs]. intros H.
  unfold hexPrefix. cbn [JS.startsWith].
  destruct (Ascii.eqb c "0") eqn:E; [|reflexivity].
  apply zero_is_decimal in E. congruence.
Qed.

(** A run of decimal digits is read as the double nearest to the integer it
    denotes. *)
Lemma parseInt_decimal (ws : string) (sg : Sign) (c : ascii) (ds rest : string) :
  allChars JS.isWhiteSpace ws = true ->
  allChars (isDigitIn 10) (String c ds) = true ->
  headIs (isDigitIn 10) rest = false ->
  hexPrefix (String c ds ++ rest) = false ->
  JS.parseInt (ws ++ signText sg ++ String c ds ++ rest)
    = JS.roundToDouble (signValue sg * valueIn 10 (String c ds)).
Proof.
  intros Hws Hds Hrest Hhex.
  assert (Hc : isDigitIn 10 c = true).
  { cbn [allChars] in Hds. now apply andb_true_iff in Hds. }
  destruct (decimal_digit_plain c Hc) as [Hnw Hns].
  rewrite parseInt_afterTrim, trimmed_text; [|exact Hws|intros _; exact Hnw].
  rewrite afterTrim_sign by (intros _; exact Hns).
  rewrite Hhex, (readDigits_run 10 _ _ Hds Hrest).
  cbn [orb String.eqb negb]. do 2 f_equal; lia.
Qed.

Lemma hexPrefixText_spec (upper : bool) (body : string) :
  hexPrefix (hexPrefixText upper ++ body) = true /\
  JS.dropTwo (hexPrefixText upper ++ body) = body /\
  headIs JS.isWhiteSpace (hexPrefixText upper ++ body) = false /\
  headIs isSignChar (hexPrefixText upper ++ body) = false.
Proof. destruct upper; repeat split; reflexivity. Qed.

(** After the prefix 0x or 0X, a run of hexadecimal digits likewise. *)
Lemma parseInt_hex (ws : string) (sg : Sign) (upper : bool) (c : ascii)
  (hs rest : string) :
  allChars JS.isWhiteSpace ws = true ->
  allChars (isDigitIn 16) (String c hs) = true ->
  headIs (isDigitIn 16) rest = false ->
  JS.parseInt (ws ++ signText sg ++ hexPrefixText upper ++ String c hs ++ rest)
    = JS.roundToDouble (signValue sg * valueIn 16 (String c hs)).
Proof.
  intros Hws Hhs Hrest.
  destruct (hexPrefixText_spec upper (String c hs ++ rest))
    as (Hp & Hd & Hw & Hs).
  rewrite parseInt_afterTrim, trimmed_text; [|exact Hws|intros _; exact Hw].
  rewrite afterTrim_sign by (intros _; exact Hs).
  rewrite Hp, Hd, (readDigits_run 16 _ _ Hhs Hrest).
  cbn [orb String.eqb negb]. do 2 f_equal; lia.
Qed.

(** The prefix 0x or 0X with no hexadecimal digit behind it reads as
    [NaN]: the 0 of the prefix is not taken as a decimal digit. *)
Lemma parseInt_hex_nothing (ws : string) (sg : Sign) (upper : bool)
  (rest : string) :
  allChars JS.isWhiteSpace ws = true ->
  headIs (isDigitIn 16) rest = false ->
  JS.parseInt (ws ++ signText sg ++ hexPrefixText upper ++ rest)
    = JS.NotANumber.
Proof.
  intros Hws Hrest.
  destruct (hexPrefixText_spec upper rest) as (Hp & Hd & Hw & Hs).
  rewrite parseInt_afterTrim, trimmed_text; [|exact Hws|intros _; exact Hw].
  rewrite afterTrim_sign by (intros _; exact Hs).
  rewrite Hp, Hd, (readDigits_none 16 _ Hrest). reflexivity.
Qed.

Lemma parseInt_nothing (ws : string) (sg : Sign) (rest : string) :
  allChars JS.isWhiteSpace ws = true ->
  headIs (isDigitIn 10) rest = false ->
  (sg = NoSign ->
   headIs JS.isWhiteSpace rest = false /\ headIs isSignChar rest = false) ->
  JS.parseInt (ws ++ signText sg ++ rest) = JS.NotANumber.
Proof.
  intros Hws Hrest Hplain.
  rewrite parseInt_afterTrim, trimmed_text; [|exact Hws|apply Hplain].
  rewrite afterTrim_sign by apply Hplain.
  rewrite (not_digit_no_hexPrefix _ Hrest), (readDigits_none 10 _ Hrest).
  reflexivity.
Qed.

(** A signed value of magnitude at most 2^53 is contributed as it is. *)
Lemma orZero_signed_exact (sg : Sign) (v : Z) :
  0 <= v <= 2 ^ 53 ->
  JS.orZero (JS.roundToDouble (signValue sg * v)) = JS.Num (signValue sg * v).
Proof.
  intros Hv. rewrite roundToDouble_exact, orZero_Num; [reflexivity|].
  destruct sg; cbn [signValue]; lia.
Qed.

(** **** C6 *)

Definition withPrepTimes (times : list string) : MenuItem :=
  mkMenuItem "m" "Menu" "" "Dinner"
    (map (fun t => mkRecipe "r" "Recipe" "" "" "" "" t "" [] [] "Dinner") times).

(** The no-break space U+00A0. *)
Definition nbsp : string := String (ascii_of_nat 160) "".

(** C6, as stated, fails: strings that do not start with a digit can
    contribute.  " 30 mins" (leading space) contributes 30, and so does the
    same text behind a no-break space; "-5 mins" contributes -5, "+7"
    contributes 7; and "0x1F", whose leading decimal integer is 0,
    contributes 31. *)
Lemma C6_non_digit_start_contributes :
  headIs (isDigitIn 10) " 30 mins" = false /\
  totalPrepTime (withPrepTimes [" 30 mins"]) = JS.Num 30 /\
  totalPrepTime (withPrepTimes [nbsp ++ "30 mins"]) = JS.Num 30 /\
  headIs (isDigitIn 10) "-5 mins" = false /\
  totalPrepTime (withPrepTimes ["-5 mins"]) = JS.Num (-5) /\
  totalPrepTime (withPrepTimes ["+7"]) = JS.Num 7 /\
  totalPrepTime (withPrepTimes ["0x1F"]) = JS.Num 31.
Proof. repeat split; reflexivity. Qed.

(** C6, amended.  The totals are the sums, over the embedded recipes and
    from left to right in double arithmetic, of what [parseInt(...) || 0]
    reads from the prepTime (cookTime) string; as long as the magnitudes of
    the contributions add up to at most 2^53 they are the exact integer
    sums.  Of a string, leading white space is skipped and an optional sign
    is taken; then the longest run of decimal digits is read as an integer,
    or, after a prefix 0x or 0X, the longest run of hexadecimal digits; the
    sign is applied.  The contribution is that integer when its magnitude is
    at most 2^53, and in general the double nearest to it (for up to 20
    decimal digits, and for every run of hexadecimal digits).  A string with
    no digit at that place contributes 0, and so does one with no
    hexadecimal digit behind the prefix 0x or 0X.  The computation is
    total: no string raises an error. *)
Theorem C6_totals_sum_parseInt (menu : MenuItem) :
  totalPrepTime menu
    = sumDoubles (map (fun r => minutes (prepTime r)) (recipes menu)) /\
  totalCookTime menu
    = sumDoubles (map (fun r => minutes (cookTime r)) (recipes menu)) /\
  (withinExactRange (map (fun r => minutes (prepTime r)) (recipes menu)) ->
   totalPrepTime menu
     = JS.Num (sumZ (map (fun r => valueOf (minutes (prepTime r)))
                         (recipes menu)))) /\
  (withinExactRange (map (fun r => minutes (cookTime r)) (recipes menu)) ->
   totalCookTime menu
     = JS.Num (sumZ (map (fun r => valueOf (minutes (cookTime r)))
                         (recipes menu)))) /\
  (forall (ws : string) (sg : Sign) (c : ascii) (ds rest : string),
     allChars JS.isWhiteSpace ws = true ->
     allChars (isDigitIn 10) (String c ds) = true ->
     headIs (isDigitIn 10) rest = false ->
     hexPrefix (String c ds ++ rest) = false ->
     (valueIn 10 (String c ds) <= 2 ^ 53 ->
      minutes (ws ++ signText sg ++ String c ds ++ rest)
        = JS.Num (signValue sg * valueIn 10 (String c ds))) /\
     ((String.length (String c ds) <= 20)%nat ->
      minutes (ws ++ signText sg ++ String c ds ++ rest)
        = JS.orZero
            (JS.roundToDouble (signValue sg * valueIn 10 (String c ds))))) /\
  (forall (ws : string) (sg : Sign) (upper : bool) (c : ascii)
          (hs rest : string),
     allChars JS.isWhiteSpace ws = true ->
     allChars (isDigitIn 16) (String c hs) = true ->
     headIs (isDigitIn 16) rest = false ->
     (valueIn 16 (String c hs) <= 2 ^ 53 ->
      minutes (ws ++ signText sg ++ hexPrefixText upper ++ String c hs ++ rest)
        = JS.Num (signValue sg * valueIn 16 (String c hs))) /\
     minutes (ws ++ signText sg ++ hexPrefixText upper ++ String c hs ++ rest)
       = JS.orZero
           (JS.roundToDouble (signValue sg * valueIn 16 (String c hs)))) /\
  (forall (ws : string) (sg : Sign) (upper : bool) (rest : string),
     allChars JS.isWhiteSpace ws = true ->
     headIs (isDigitIn 16) rest = false ->
     minutes (ws ++ signText sg ++ hexPrefixText upper ++ rest) = JS.Num 0) /\
  (forall (ws : string) (sg : Sign) (rest : string),
     allChars JS.isWhiteSpace ws = true ->
     headIs (isDigitIn 10) rest = false ->
     (sg = NoSign ->
      headIs JS.isWhiteSpace rest = false /\ headIs isSignChar rest = false) ->
     minutes (ws ++ signText sg ++ rest) = JS.Num 0).
Proof.
  split; [|split; [|split; [|split; [|split; [|split; [|split]]]]]].
  - apply totalPrepTime_sumDoubles.
  - apply totalCookTime_sumDoubles.
  - intros H. rewrite totalPrepTime_sumDoubles, sumDoubles_exact by exact H.
    now rewrite map_map.
  - intros H. rewrite totalCookTime_sumDoubles, sumDoubles_exact by exact H.
    now rewrite map_map.
  - intros ws sg c ds rest H1 H2 H3 H4. unfold minutes.
    rewrite parseInt_decimal by assumption. split; [|reflexivity].
    intros H5. apply orZero_signed_exact.
    split; [apply valueIn_nonneg; lia|exact H5].
  - intros ws sg upper c hs rest H1 H2 H3. unfold minutes.
    rewrite parseInt_hex by assumption. split; [|reflexivity].
    intros H4. apply orZero_signed_exact.
    split; [apply valueIn_nonneg; lia|exact H4].
  - intros ws sg upper rest H1 H2. unfold minutes.
    now rewrite parseInt_hex_nothing.
  - intros ws sg rest H1 H2 H3. unfold minutes.
    now rewrite parseInt_nothing.
Qed.

(** The examples of C6: "30 mins" and "15 mins" add up to 45, and "quick"
    contributes nothing; neither does "0xg". *)
Example C6_thirty_plus_fifteen :
  totalPrepTime (withPrepTimes ["30 mins"; "15 mins"]) = JS.Num 45 /\
  totalPrepTime (withPrepTimes ["30 mins"; "quick"; "15 mins"]) = JS.Num 45 /\
  minutes "quick" = JS.Num 0 /\
  minutes "0xg" = JS.Num 0.
Proof. repeat split; reflexivity. Qed.

(** Beyond 2^53 the values are rounded: 2^53 + 1 is read as 2^53, and the
    total depends on the order in which the recipes are added. *)
Example C6_rounding_beyond_exact_range :
  minutes "9007199254740993" = JS.Num 9007199254740992 /\
  totalPrepTime (withPrepTimes ["9007199254740992"; "1"; "1"])
    = JS.Num 9007199254740992 /\
  totalPrepTime (withPrepTimes ["1"; "1"; "9007199254740992"])
    = JS.Num 9007199254740994.
Proof. repeat split; reflexivity. Qed.

End MenuSpec.

(* ================================================================== *)
(** * Shopping list: price per unit, alphabetical order *)
(* ================================================================== *)

Module ShoppingListSpec.
Import Firestore ShoppingList.
Local Open Scope list_scope.

(** ** Division by zero on doubles *)

Lemma float_of_spec (x : float) (s : spec_float) :
  Prim2SF x = s -> x = SF2Prim s.
Proof. intros <-. symmetry. apply SF2Prim_Prim2SF. Qed.

Lemma div_by_zero_not_finite (p q : float) :
  q = 0%float \/ q = (-0)%float -> is_finite (p / q) = false.
Proof.
  intros Hq.
  assert (Hz : exists s, Prim2SF q = S754_zero s).
  { destruct Hq as [-> | ->]; eexists; reflexivity. }
  destruct Hz as [s Hs].
  pose proof (div_spec p q) as H. rewrite Hs in H. unfold SF64div, SFdiv in H.
  destruct (Prim2SF p) as [sx | sx | | sx mx ex];
    apply float_of_spec in H; rewrite H;
    try reflexivity; destruct sx, s; reflexivity.
Qed.

(** ** Sorting by name *)

Section Collation.

Variable localeCompare : string -> string -> comparison.

(** The comparator is consistent: swapping its arguments swaps its sign,
    and "not after" is transitive. *)
Hypothesis localeCompare_flip :
  forall a b, localeCompare b a = CompOpp (localeCompare a b).
Hypothesis localeCompare_trans :
  forall a b c,
    localeCompare a b <> Gt -> localeCompare b c <> Gt ->
    localeCompare a c <> Gt.

(** [a] is not after [b] in the alphabetical order of the names. *)
Definition byName (a b : ShoppingItem) : Prop :=
  localeCompare (name a) (name b) <> Gt.

Definition alphabetical (l : list ShoppingItem) : Prop :=
  StronglySorted byName l.

Lemma insertByName_perm (x : ShoppingItem) (l : list ShoppingItem) :
  Permutation (insertByName localeCompare x l) (x :: l).
Proof.
  induction l as [|y l IH]; simpl; [reflexivity|].
  destruct (localeCompare (name x) (name y)); try reflexivity.
  rewrite IH. apply perm_swap.
Qed.

Lemma sortByName_perm (l : list ShoppingItem) :
  Permutation (sortByName localeCompare l) l.
Proof.
  induction l as [|x l IH]; simpl; [reflexivity|].
  rewrite insertByName_perm. now constructor.
Qed.

Lemma insertByName_sorted (x : ShoppingItem) (l : list ShoppingItem) :
  alphabetical l -> alphabetical (insertByName localeCompare x l).
Proof.
  unfold alphabetical. induction 1 as [|y l Hl IH Hy]; simpl.
  - repeat constructor.
  - destruct (localeCompare (name x) (name y)) eqn:E.
    + constructor; [now constructor|]. constructor.
      * unfold byName. congruence.
      * eapply Forall_impl; [|exact Hy]. intros z Hz. unfold byName in *.
        apply (localeCompare_trans _ (name y)); congruence.
    + constructor; [now constructor|]. constructor.
      * unfold byName. congruence.
      * eapply Forall_impl; [|exact Hy]. intros z Hz. unfold byName in *.
        apply (localeCompare_trans _ (name y)); congruence.
    + constructor; [exact IH|].
      apply (Permutation_Forall (Permutation_sym (insertByName_perm x l))).
      constructor; [|exact Hy].
      unfold byName. rewrite localeCompare_flip, E. discriminate.
Qed.

Lemma sortByName_sorted (l : list ShoppingItem) :
  alphabetical (sortByName localeCompare l).
Proof.
  induction l as [|x l IH]; simpl.
  - constructor.
  - now apply insertByName_sorted.
Qed.

(** ** The order is an invariant of the page *)

Definition Inv (w : World) : Prop := alphabetical (items (view w)).

(** A computation preserves the invariant, however it ends. *)
Definition preserves {A} (m : Async World A) : Prop :=
  forall w, Inv w -> Inv (snd (m w)).

Lemma preserves_ret {A} (a : A) : preserves (ret a).
Proof. intros w H. exact H. Qed.

Lemma preserves_throw {A} (e : Error) : preserves (@throw World A e).
Proof. intros w H. exact H. Qed.

Lemma preserves_bind {A B} (m : Async World A) (k : A -> Async World B) :
  preserves m -> (forall a, preserves (k a)) -> preserves (bind m k).
Proof.
  intros Hm Hk w H. unfold bind. specialize (Hm w H).
  destruct (m w) as [[a|e] w']; simpl in *.
  - now apply Hk.
  - exact Hm.
Qed.

Lemma preserves_tryCatch {A} (body : Async World A)
  (handler : Error -> Async World A) :
  preserves body -> (forall e, preserves (handler e)) ->
  preserves (tryCatch body handler).
Proof.
  intros Hb Hh w H. unfold tryCatch. specialize (Hb w H).
  destruct (body w) as [[a|e] w']; simpl in *.
  - exact Hb.
  - now apply Hh.
Qed.

Lemma preserves_untouched {A} (m : Async World A) :
  (forall w, items (view (snd (m w))) = items (view w)) -> preserves m.
Proof. intros Hm w H. unfold Inv. now rewrite Hm. Qed.

Lemma preserves_request : preserves request.
Proof.
  apply preserves_untouched. intros w. unfold request.
  destruct (oracle (net w) (clock (net w))); reflexivity.
Qed.

Lemma preserves_consoleError (msg : string) : preserves (consoleError msg).
Proof. now apply preserves_untouched. Qed.

Lemma preserves_readView : preserves readView.
Proof. now apply preserves_untouched. Qed.

Lemma preserves_setItemDocs f : preserves (setItemDocs f).
Proof. now apply preserves_untouched. Qed.

Lemma preserves_setListDocs f : preserves (setListDocs f).
Proof. now apply preserves_untouched. Qed.

Lemma preserves_setView (f : View -> View) :
  (forall v, items (f v) = items v) -> preserves (setView f).
Proof. intros Hf. apply preserves_untouched. intros w. apply Hf. Qed.

Lemma preserves_setItems_sorted (l : list ShoppingItem) :
  preserves (setItems (sortByName localeCompare l)).
Proof. intros w _. apply sortByName_sorted. Qed.

Create HintDb preserve.
#[local] Hint Resolve preserves_ret preserves_throw preserves_request
  preserves_consoleError preserves_readView preserves_setItemDocs
  preserves_setListDocs preserves_setItems_sorted : preserve.

Ltac preserve_step :=
  lazymatch goal with
  | |- preserves (bind _ _) => apply preserves_bind; [|intros ?]
  | |- preserves (tryCatch _ _) => apply preserves_tryCatch; [|intros ?]
  | |- preserves (setView _) => apply preserves_setView; intros ?; reflexivity
  | |- preserves (match ?x with _ => _ end) => destruct x
  | |- preserves _ => solve [auto with preserve]
  end.

Lemma preserves_getDocsLists : preserves getDocsLists.
Proof.
  unfold getDocsLists. preserve_step; [preserve_step|].
  now apply preserves_untouched.
Qed.

Lemma preserves_getDocsItems (listId : string) :
  preserves (getDocsItems listId).
Proof.
  unfold getDocsItems. preserve_step; [preserve_step|].
  now apply preserves_untouched.
Qed.

Lemma preserves_addDocItem (listId : string) (newItem : NewItem) :
  preserves (addDocItem listId newItem).
Proof. unfold addDocItem. repeat preserve_step. Qed.

Lemma preserves_addDocList (listName : string) :
  preserves (addDocList listName).
Proof. unfold addDocList. repeat preserve_step. Qed.

Lemma preserves_updateDocItem (listId itemId : string) fields :
  preserves (updateDocItem listId itemId fields).
Proof.
  unfold updateDocItem. preserve_step; [preserve_step|].
  apply preserves_untouched. intros w.
  destruct (existsb (isDoc listId itemId) (itemDocs w)); reflexivity.
Qed.

Lemma preserves_deleteDocItem (listId itemId : string) :
  preserves (deleteDocItem listId itemId).
Proof. unfold deleteDocItem. repeat preserve_step. Qed.

Lemma preserves_deleteEach (listId : string) (ids : list string) :
  preserves (deleteEach listId ids).
Proof.
  induction ids as [|i ids IH]; simpl.
  - apply preserves_ret.
  - apply preserves_bind; [apply preserves_deleteDocItem | intros _; exact IH].
Qed.

#[local] Hint Resolve preserves_getDocsLists preserves_getDocsItems
  preserves_addDocItem preserves_addDocList preserves_updateDocItem
  preserves_deleteDocItem preserves_deleteEach : preserve.

Lemma preserves_fetchItems (listId : string) :
  preserves (fetchItems localeCompare listId).
Proof. unfold fetchItems. repeat preserve_step. Qed.

Lemma preserves_handle (e : Event) : preserves (handle localeCompare e).
Proof.
  destruct e; cbn [handle].
  - unfold fetchShoppingLists. pose proof preserves_fetchItems.
    repeat preserve_step; auto.
  - unfold handleAddList. repeat preserve_step.
  - unfold chooseList. repeat preserve_step.
  - unfold handleAddItem. repeat preserve_step.
  - unfold handleSaveEdit. repeat preserve_step.
  - unfold toggleComplete. repeat preserve_step.
  - unfold handleSelectItem. repeat preserve_step.
  - unfold handleDeleteSelected. repeat preserve_step.
  - unfold handleDeleteItem. repeat preserve_step.
Qed.

(** **** C8 *)

(** C8.  For a consistent collation, the in-memory items list of the
    shopping page is in alphabetical order of the item names in every state
    the page can reach: at the start, after every load of a list's items and
    after every addition, edit, toggle of completion and deletion, whether
    the request behind it succeeded or failed. *)
Theorem C8_items_always_alphabetical (w : World) :
  reachable localeCompare w -> alphabetical (items (view w)).
Proof.
  induction 1 as [lists docs n | e w Hw IH].
  - constructor.
  - apply (preserves_handle e w IH).
Qed.

End Collation.


(** ** A collation to run the examples with *)

(** Comparison by code units.  On words that first differ at two letters of
    the same case it agrees with the collation of every locale of the Latin
    alphabet. *)
Definition codeUnitCompare : string -> string -> comparison :=
  String_as_OT.cmp.

Lemma codeUnitCompare_flip (a b : string) :
  codeUnitCompare b a = CompOpp (codeUnitCompare a b).
Proof. apply String_as_OT.cmp_antisym. Qed.

Lemma codeUnitCompare_le (a b : string) :
  codeUnitCompare a b <> Gt <-> a = b \/ String_as_OT.lt a b.
Proof.
  unfold codeUnitCompare.
  rewrite <- String_as_OT.cmp_eq, <- String_as_OT.cmp_lt.
  destruct (String_as_OT.cmp a b); intuition congruence.
Qed.

Lemma codeUnitCompare_trans (a b c : string) :
  codeUnitCompare a b <> Gt -> codeUnitCompare b c <> Gt ->
  codeUnitCompare a c <> Gt.
Proof.
  rewrite !codeUnitCompare_le. intros [-> | Hab] [-> | Hbc]; auto.
  right. eapply String_as_OT.lt_trans; eassumption.
Qed.

Definition groceries : ShoppingListDoc := mkShoppingListDoc "L1" "Groceries".

Definition bananas : ShoppingItem := mkShoppingItem "b" "Bananas" "Fruit" false [].

Definition apples : ShoppingItem := mkShoppingItem "a" "Apples" "Fruit" false [].

(** The store holds the list with Bananas and Apples, both pending, and the
    backend resolves every request. *)
Definition fruitStore : World :=
  mkWorld [groceries] [("L1", bananas); ("L1", apples)]
    (mkNet 0 (fun _ => Resolved "auto")) [] initialView.

(** The page is mounted, then Bananas is ticked. *)
Definition afterTogglingBananas : World :=
  after codeUnitCompare (ToggleComplete bananas)
    (after codeUnitCompare Mount fruitStore).

(** The scenario of C8: after the toggle the list reads Apples (pending),
    Bananas (completed), and it is in alphabetical order. *)
Lemma C8_bananas_apples_witness :
  alphabetical codeUnitCompare (items (view afterTogglingBananas)) /\
  map (fun i => (name i, completed i)) (items (view afterTogglingBananas))
    = [("Apples", false); ("Bananas", true)].
Proof.
  split.
  - apply (C8_items_always_alphabetical codeUnitCompare
             codeUnitCompare_flip codeUnitCompare_trans).
    unfold afterTogglingBananas, fruitStore.
    apply reachable_after, reachable_after, reachable_start.
  - vm_compute. reflexivity.
Defined.

(** The toggle alone, on the unsorted list [Bananas; Apples]. *)
Example toggle_resorts :
  let w := mkWorld [groceries] [("L1", bananas); ("L1", apples)]
             (mkNet 0 (fun _ => Resolved "auto")) []
             (mkView [groceries] (Some groceries) [bananas; apples] []) in
  map (fun i => (name i, completed i))
      (items (view (after codeUnitCompare (ToggleComplete bananas) w)))
    = [("Apples", false); ("Bananas", true)].
Proof. vm_compute. reflexivity. Qed.

(** **** C7 *)

(** C7.  Both dialogs append a variant whose [pricePerUnit] is the quotient
    [price / quantity] of the entered numbers, in double arithmetic, and
    reset the entry fields; 10 / 4 is 2.5; and when the quantity is zero the
    quotient is not a finite number (an infinity or NaN), which is what gets
    stored.  The handlers are total: nothing is thrown. *)
Theorem C7_pricePerUnit_is_quotient (shown : list ProductVariant)
  (now : string) (editedItem : ShoppingItem) (cp : CurrentProduct) :
  (exists v,
     AddItemModal.handleAddProduct shown cp = (shown ++ [v], blankProduct) /\
     price v = cp_price cp /\ quantity v = cp_quantity cp /\
     pricePerUnit v = (price v / quantity v)%float) /\
  (exists v,
     products (fst (EditItemModal.handleAddProduct now editedItem cp))
       = products editedItem ++ [v] /\
     price v = cp_price cp /\ quantity v = cp_quantity cp /\
     pricePerUnit v = (price v / quantity v)%float) /\
  (10 / 4 = 2.5)%float /\
  is_finite (10 / 0)%float = false /\
  ((cp_quantity cp = 0 \/ cp_quantity cp = -0)%float ->
   is_finite (cp_price cp / cp_quantity cp)%float = false).
Proof.
  split; [|split; [|split; [|split]]].
  - eexists. repeat split.
  - eexists. repeat split.
  - reflexivity.
  - reflexivity.
  - intros H. now apply div_by_zero_not_finite.
Qed.

End ShoppingListSpec.

(* ================================================================== *)
(** * Calendar: loading entries, scheduling a menu *)
(* ================================================================== *)

Module CalendarSpec.
Import Firestore Calendar.
Local Open Scope list_scope.

(** The entry built from a calendar document and the fields of its menu. *)
Definition entryWith (d : string * CalendarData) (fields : MenuData)
  : CalendarEntry :=
  mkCalendarEntry (fst d) (date (snd d)) (menuId (snd d))
    (mkMenuItem (menuId (snd d)) (Some fields)).

(** What the load keeps of document [d] when its menu is asked for by
    request number [k]. *)
Definition loaded (answers : nat -> Reply) (menus : Collection MenuData)
  (k : nat) (d : string * CalendarData) : option CalendarEntry :=
  match answers k with
  | Rejected => None
  | Resolved _ =>
      match lookupDoc menus (menuId (snd d)) with
      | Some fields => Some (entryWith d fields)
      | None => None
      end
  end.

Fixpoint loadedFrom (answers : nat -> Reply) (menus : Collection MenuData)
  (k : nat) (docs : Collection CalendarData) : list CalendarEntry :=
  match docs with
  | [] => []
  | d :: rest =>
      match loaded answers menus k d with
      | Some e => e :: loadedFrom answers menus (S k) rest
      | None => loadedFrom answers menus (S k) rest
      end
  end.

Lemma loadEntry_run (d : string * CalendarData) (w : World) :
  exists errs,
    loadEntry d w =
      (Ok (loaded (oracle (net w)) (menuDocs w) (clock (net w)) d),
       mkWorld (calendarDocs w) (menuDocs w) (tick (net w)) errs
               (calendarEntries w)).
Proof.
  unfold loadEntry, loaded, tryCatch, bind, getDocMenu, bind, request.
  destruct (oracle (net w) (clock (net w))) as [|autoId]; cbn.
  - eexists. reflexivity.
  - destruct (lookupDoc (menuDocs w) (menuId (snd d))); cbn;
      eexists; reflexivity.
Qed.

Lemma promiseAll_run (docs : Collection CalendarData) :
  forall w,
  exists errs ys,
    promiseAll loadEntry docs w =
      (Ok ys,
       mkWorld (calendarDocs w) (menuDocs w)
               (mkNet (clock (net w) + List.length docs) (oracle (net w)))
               errs (calendarEntries w)) /\
    nonNull ys = loadedFrom (oracle (net w)) (menuDocs w) (clock (net w)) docs.
Proof.
  induction docs as [|d docs IH]; intros w.
  - exists (consoleErrors w), []. cbn. rewrite Nat.add_0_r.
    destruct w as [c m [k o] e s]. split; reflexivity.
  - destruct (loadEntry_run d w) as (errs1 & H1).
    cbn [promiseAll]. unfold bind at 1. rewrite H1. cbn beta iota.
    unfold bind at 1.
    match goal with |- context [promiseAll loadEntry docs ?w1] =>
      destruct (IH w1) as (errs & ys & H2 & Hys) end.
    cbn in H2, Hys. rewrite H2.
    exists errs, (loaded (oracle (net w)) (menuDocs w) (clock (net w)) d :: ys).
    split.
    + cbn. replace (S (clock (net w) + List.length docs))
        with (clock (net w) + S (List.length docs)) by lia. reflexivity.
    + cbn [nonNull loadedFrom].
      destruct (loaded (oracle (net w)) (menuDocs w) (clock (net w)) d);
        rewrite Hys; reflexivity.
Qed.

Lemma loaded_Some (answers : nat -> Reply) (menus : Collection MenuData)
  (k : nat) (d : string * CalendarData) (e : CalendarEntry) :
  loaded answers menus k d = Some e <->
  answers k <> Rejected /\
  exists fields,
    lookupDoc menus (menuId (snd d)) = Some fields /\ e = entryWith d fields.
Proof.
  unfold loaded. destruct (answers k) as [|autoId].
  - split; [discriminate | intros [H _]; congruence].
  - destruct (lookupDoc menus (menuId (snd d))) as [fields|].
    + split.
      * intros [= <-]. split; [discriminate|]. now exists fields.
      * intros [_ (f & [= <-] & ->)]. reflexivity.
    + split; [discriminate | intros [_ (f & [=] & _)]].
Qed.

Lemma In_loadedFrom (answers : nat -> Reply) (menus : Collection MenuData)
  (docs : Collection CalendarData) (e : CalendarEntry) :
  forall k0,
    In e (loadedFrom answers menus k0 docs) <->
    exists k d,
      nth_error docs k = Some d /\ loaded answers menus (k0 + k) d = Some e.
Proof.
  induction docs as [|d docs IH]; intros k0; cbn [loadedFrom].
  - split; [intros [] | intros (k & d & H & _); destruct k; discriminate].
  - assert (Hrest :
      In e (loadedFrom answers menus (S k0) docs) <->
      exists k d', nth_error docs k = Some d' /\
                   loaded answers menus (k0 + S k) d' = Some e).
    { rewrite IH. split; intros (k & d' & H1 & H2); exists k, d';
        (split; [exact H1|]);
        replace (k0 + S k) with (S k0 + k) in * by lia; exact H2. }
    split.
    + intros H.
      assert (Hcase : loaded answers menus k0 d = Some e \/
                      In e (loadedFrom answers menus (S k0) docs)).
      { destruct (loaded answers menus k0 d) as [e'|]; [|now right].
        destruct H as [-> | H]; [now left | now right]. }
      destruct Hcase as [H0 | H1].
      * exists 0, d. rewrite Nat.add_0_r. now split.
      * apply Hrest in H1. destruct H1 as (k & d' & H1 & H2).
        exists (S k), d'. now split.
    + intros (k & d' & H1 & H2). destruct k as [|k].
      * cbn in H1. injection H1 as <-. rewrite Nat.add_0_r in H2.
        rewrite H2. now left.
      * cbn in H1.
        assert (In e (loadedFrom answers menus (S k0) docs)).
        { apply Hrest. now exists k, d'. }
        destruct (loaded answers menus k0 d); [now right | assumption].
Qed.

(** **** C10 *)

(** C10.  Loading the calendar never raises.  When the list of calendar
    records is obtained, the in-memory entries are exactly the records whose
    menu fetch resolved and found an existing menu, each with that menu's
    fetched fields attached (in the order of the records); a record whose
    menu does not exist or whose menu fetch is rejected yields no entry.
    When the list cannot be obtained the entries stay as they were.  The
    store is not written. *)
Theorem C10_load_keeps_only_entries_with_menu (w : World) :
  exists w',
    fetchCalendarEntries w = (Ok tt, w') /\
    calendarDocs w' = calendarDocs w /\
    menuDocs w' = menuDocs w /\
    (oracle (net w) (clock (net w)) <> Rejected ->
     calendarEntries w' =
       loadedFrom (oracle (net w)) (menuDocs w) (S (clock (net w)))
                  (calendarDocs w) /\
     forall e,
       In e (calendarEntries w') <->
       exists k d fields,
         nth_error (calendarDocs w) k = Some d /\
         oracle (net w) (S (clock (net w)) + k) <> Rejected /\
         lookupDoc (menuDocs w) (menuId (snd d)) = Some fields /\
         e = entryWith d fields) /\
    (oracle (net w) (clock (net w)) = Rejected ->
     calendarEntries w' = calendarEntries w).
Proof.
  unfold fetchCalendarEntries, tryCatch, bind at 1, getDocsCalendar,
    bind at 1, request.
  destruct (oracle (net w) (clock (net w))) as [|autoId] eqn:E; cbn.
  - eexists. split; [reflexivity|]. cbn.
    split; [reflexivity|]. split; [reflexivity|].
    split; [intros Hne; congruence | reflexivity].
  - unfold bind at 1.
    match goal with |- context [promiseAll loadEntry _ ?w1] =>
      destruct (promiseAll_run (calendarDocs w) w1)
        as (errs & ys & Hrun & Hys) end.
    cbn in Hrun, Hys. rewrite Hrun. cbn.
    eexists. split; [reflexivity|]. cbn.
    split; [reflexivity|]. split; [reflexivity|]. split; [|discriminate].
    intros _. split; [exact Hys|].
    intros e. rewrite Hys, In_loadedFrom. split.
    + intros (k & d & H1 & H2). apply loaded_Some in H2.
      destruct H2 as (H2 & fields & H3 & H4). now exists k, d, fields.
    + intros (k & d & fields & H1 & H2 & H3 & H4). exists k, d.
      split; [exact H1|]. apply loaded_Some. split; [exact H2|].
      now exists fields.
Qed.

(** A new document joins the collection, and nothing else does. *)
Lemma In_insertDoc {D} (newId : string) (d : D) (c : Collection D)
  (x : string * D) :
  In x (insertDoc newId d c) <-> x = (newId, d) \/ In x c.
Proof.
  induction c as [|[k y] c IH]; cbn [insertDoc].
  - cbn. intuition congruence.
  - destruct (String.ltb newId k); cbn [In] in *.
    + intuition congruence.
    + rewrite IH. tauto.
Qed.


(** **** C2 *)

(** What [handleSaveMenu] does, by the answers to its two requests: the
    write of the calendar record comes first, the menu is fetched second. *)
Lemma handleSaveMenu_run (dateText menuId : string) (w : World) :
  exists w',
    handleSaveMenu dateText menuId w = (Ok tt, w') /\
    menuDocs w' = menuDocs w /\
    match oracle (net w) (clock (net w)) with
    | Rejected =>
        calendarDocs w' = calendarDocs w /\
        calendarEntries w' = calendarEntries w
    | Resolved newId =>
        calendarDocs w' =
          insertDoc newId (mkCalendarData dateText menuId) (calendarDocs w) /\
        match oracle (net w) (S (clock (net w))) with
        | Rejected => calendarEntries w' = calendarEntries w
        | Resolved _ =>
            calendarEntries w' =
              calendarEntries w
                ++ [mkCalendarEntry newId dateText menuId
                      (mkMenuItem menuId (lookupDoc (menuDocs w) menuId))]
        end
    end.
Proof.
  unfold handleSaveMenu, readCalendarEntries, tryCatch, bind at 1.
  unfold bind at 1, addDocCalendar, bind at 1, request.
  destruct (oracle (net w) (clock (net w))) as [|newId]; cbn.
  - eexists. split; [reflexivity|]. cbn. auto.
  - unfold bind at 1, getDocMenu, bind at 1, request. cbn.
    destruct (oracle (net w) (S (clock (net w)))) as [|autoId]; cbn;
      (eexists; split; [reflexivity|]; cbn; auto).
Qed.

Definition noMenus (answers : nat -> Reply) : World :=
  mkWorld [] [] (mkNet 0 answers) [] [].

(** C2 on the code.  Scheduling an identifier that names no menu, with a
    backend that resolves both requests, stores a calendar record and shows
    an entry whose menu has no fields.  When the menu fetch is rejected the
    calendar record has already been stored and stays, although no entry is
    shown. *)
Lemma C2_calendar_record_written_before_menu_is_known :
  (let w' := snd (handleSaveMenu "2024-01-15" "ghost"
                    (noMenus (fun _ => Resolved "cal-1"))) in
   calendarDocs w' = [("cal-1", mkCalendarData "2024-01-15" "ghost")] /\
   calendarEntries w' =
     [mkCalendarEntry "cal-1" "2024-01-15" "ghost" (mkMenuItem "ghost" None)]) /\
  (let w' := snd (handleSaveMenu "2024-01-15" "ghost"
                    (noMenus (fun k => match k with
                                       | O => Resolved "cal-1"
                                       | S _ => Rejected
                                       end))) in
   calendarDocs w' = [("cal-1", mkCalendarData "2024-01-15" "ghost")] /\
   calendarEntries w' = []).
Proof. repeat split; reflexivity. Qed.

End CalendarSpec.

(* ================================================================== *)
(** * Recipes: further properties of stock status, filter and workflow *)
(* ================================================================== *)

Module RecipesMore.
Import Firestore Recipes JSFacts RecipesSpec.
Local Open Scope list_scope.

(** Two inventories whose items carry the same names up to case. *)
Definition sameNamesCI (a b : option InventoryItem) : Prop :=
  match a, b with
  | Some x, Some y =>
      match inv_name x, inv_name y with
      | Some n, Some m => JS.toLowerCase n = JS.toLowerCase m
      | None, None => True
      | _, _ => False
      end
  | None, None => True
  | _, _ => False
  end.

Lemma toLowerCase_empty (s : string) :
  JS.toLowerCase s = "" -> s = "".
Proof. destruct s; [reflexivity | discriminate]. Qed.

Lemma itemMatches_sameNames (low : string) (a b : option InventoryItem) :
  sameNamesCI a b -> itemMatches low a = itemMatches low b.
Proof.
  unfold sameNamesCI, itemMatches.
  destruct a as [x|], b as [y|]; try tauto.
  destruct (inv_name x), (inv_name y); try tauto.
  now intros ->.
Qed.

Lemma existsb_Forall2 {A} (f g : A -> bool) (l1 l2 : list A) (R : A -> A -> Prop) :
  (forall a b, R a b -> f a = g b) ->
  Forall2 R l1 l2 -> existsb f l1 = existsb g l2.
Proof.
  intros Hfg. induction 1 as [|a b l1 l2 Hab _ IH]; cbn; [reflexivity|].
  now rewrite (Hfg a b Hab), IH.
Qed.

(** X1.  The stock check ignores case on both sides: ingredient names that agree
    up to case get the same answer, against inventories whose item names
    agree up to case. *)
Theorem checkIngredientInStock_ignores_case
  (inv1 inv2 : list (option InventoryItem)) (s1 s2 : string) :
  JS.toLowerCase s1 = JS.toLowerCase s2 ->
  Forall2 sameNamesCI inv1 inv2 ->
  checkIngredientInStock inv1 (Some s1) = checkIngredientInStock inv2 (Some s2).
Proof.
  intros Hs Hinv. unfold checkIngredientInStock.
  destruct s1 as [|c1 r1], s2 as [|c2 r2]; try discriminate; [reflexivity|].
  rewrite Hs. apply (existsb_Forall2 _ _ _ _ sameNamesCI); [|exact Hinv].
  intros a b. apply itemMatches_sameNames.
Qed.

Lemma checkIngredientInStock_ignores_case_witness :
  checkIngredientInStock [Some (mkInventoryItem "i" (Some "Wheat FLOUR") "kg")]
    (Some "flour")
  = checkIngredientInStock [Some (mkInventoryItem "j" (Some "wheat flour") "g")]
      (Some "FLOUR").
Proof.
  apply checkIngredientInStock_ignores_case.
  - reflexivity.
  - constructor; [reflexivity | constructor].
Defined.

(** X2.  Stocking up never makes an ingredient or a recipe go out of stock. *)
Theorem stock_status_monotone (inv1 inv2 : list (option InventoryItem)) :
  (forall item, In item inv1 -> In item inv2) ->
  (forall ingredient,
     checkIngredientInStock inv1 ingredient = true ->
     checkIngredientInStock inv2 ingredient = true) /\
  (forall recipe,
     hasAllIngredientsInStock inv1 recipe = true ->
     hasAllIngredientsInStock inv2 recipe = true).
Proof.
  intros Hincl.
  assert (Hcheck : forall ingredient,
            checkIngredientInStock inv1 ingredient = true ->
            checkIngredientInStock inv2 ingredient = true).
  { intros [[|c s]|]; cbn; try discriminate.
    rewrite !existsb_exists. intros (item & Hin & Hm). exists item. auto. }
  split; [exact Hcheck|].
  intros recipe. unfold hasAllIngredientsInStock.
  destruct (ingredients recipe) as [ings|]; [|discriminate].
  rewrite !forallb_forall. intros H i Hi. specialize (H i Hi).
  rewrite ingredientInStock_check in *. auto.
Qed.

Lemma stock_status_monotone_witness :
  hasAllIngredientsInStock
    (Some (mkInventoryItem "s" (Some "Saffron") "g") :: pantry)
    (mkRecipe "r" "Bread" "" "" "" "" ""
       (Some [Some (mkIngredient (Some "flour") "g")]) [])
  = true.
Proof.
  apply (stock_status_monotone pantry).
  - intros item H. now right.
  - reflexivity.
Defined.

(** ** Fully stocked recipes and the workflow *)

Lemma forallb_missingOf (inventory : list (option InventoryItem))
  (ings : list Ingredient) :
  forallb (ingredientInStock inventory) (map Some ings) = true <->
  missingOf inventory ings = [].
Proof.
  unfold missingOf. induction ings as [|i ings IH]; cbn; [tauto|].
  rewrite ingredientInStock_check. cbn [nameOf].
  destruct (checkIngredientInStock inventory (ing_name i)); cbn.
  - exact IH.
  - split; discriminate.
Qed.

(** X3.  A recipe is fully in stock exactly when it has no missing ingredient,
    and for such a recipe the add-missing-ingredients handler sends no
    request and writes nothing: it only shows its success alert. *)
Theorem fully_stocked_adds_nothing (l : ShoppingList)
  (inventory : list (option InventoryItem)) (recipe : Recipe)
  (ings : list Ingredient) (w : World) :
  ingredients recipe = Some (map Some ings) ->
  (hasAllIngredientsInStock inventory recipe = true <->
   missingIngredients inventory recipe = Ok []) /\
  (hasAllIngredientsInStock inventory recipe = true ->
   handleAddMissingIngredients (Some l) inventory recipe w =
     (Ok tt,
      mkWorld (itemDocs w) (net w)
        (alerts w ++ ["Missing ingredients added to the shopping list!"])
        (consoleErrors w))).
Proof.
  intros Hi.
  assert (Hiff : hasAllIngredientsInStock inventory recipe = true <->
                 missingOf inventory ings = []).
  { unfold hasAllIngredientsInStock. rewrite Hi. apply forallb_missingOf. }
  split.
  - rewrite Hiff. unfold missingIngredients.
    rewrite Hi, filterMissing_present. split; congruence.
  - intros H. apply Hiff in H.
    unfold handleAddMissingIngredients, missingIngredients, bind at 1, liftResult.
    rewrite Hi, filterMissing_present, H. reflexivity.
Qed.

Definition flourBread : Recipe :=
  mkRecipe "r" "Bread" "" "" "" "" ""
    (Some (map Some [mkIngredient (Some "flour") "g"])) [].

Lemma fully_stocked_adds_nothing_witness :
  handleAddMissingIngredients (Some (mkShoppingList "L" "Groceries")) pantry
    flourBread emptyStore
  = (Ok tt,
     mkWorld [] (net emptyStore)
       ["Missing ingredients added to the shopping list!"] []).
Proof.
  apply (proj2 (fully_stocked_adds_nothing (mkShoppingList "L" "Groceries")
                  pantry flourBread [mkIngredient (Some "flour") "g"]
                  emptyStore eq_refl)).
  reflexivity.
Defined.

(** ** A write that fails part-way *)

Lemma addEach_rejected (listId : string) (missing : list Ingredient) :
  forall (j : nat) (w : World),
    (j < List.length missing)%nat ->
    forallb hasName (firstn (S j) missing) = true ->
    (forall k, (k < j)%nat ->
               oracle (net w) (clock (net w) + k) <> Rejected) ->
    oracle (net w) (clock (net w) + j) = Rejected ->
    exists added,
      addEach listId missing w =
        (Throw FirestoreError,
         mkWorld (itemDocs w ++ added)
                 (mkNet (clock (net w) + S j) (oracle (net w)))
                 (alerts w) (consoleErrors w)) /\
      map payload added =
        map (fun i => (listId, newShoppingItem i)) (firstn j missing).
Proof.
  induction missing as [|i missing IH]; intros j w Hj Hnamed Hres Hrej.
  - cbn in Hj. lia.
  - cbn [firstn forallb] in Hnamed. apply andb_true_iff in Hnamed.
    destruct Hnamed as [Hi Hnamed].
    cbn [addEach]. unfold bind. rewrite (addDoc_named _ _ _ Hi).
    destruct j as [|j].
    + rewrite Nat.add_0_r in Hrej. rewrite Hrej. exists [].
      rewrite app_nil_r. split; [|reflexivity].
      unfold tick. now rewrite Nat.add_1_r.
    + pose proof (Hres 0%nat (Nat.lt_0_succ _)) as H0.
      rewrite Nat.add_0_r in H0.
      destruct (oracle (net w) (clock (net w))) as [|newId] eqn:E;
        [congruence|].
      match goal with |- context [addEach listId missing ?w1] =>
        destruct (IH j w1) as (added & Hrun & Hmap) end.
      * cbn in Hj. lia.
      * exact Hnamed.
      * intros k Hk. cbn.
        replace (S (clock (net w) + k)) with (clock (net w) + S k)%nat by lia.
        apply Hres. lia.
      * cbn. replace (S (clock (net w) + j))
          with (clock (net w) + S j)%nat by lia. exact Hrej.
      * exists ((listId, (newId, newShoppingItem i)) :: added). split.
        -- rewrite Hrun. cbn. rewrite <- app_assoc. cbn.
           replace (S (clock (net w) + S j))
             with (clock (net w) + S (S j))%nat by lia.
           reflexivity.
        -- cbn. now rewrite Hmap.
Qed.

(** X4.  There is no rollback.  When the first [j + 1] missing ingredients
    have names, the first [j] writes resolve and the next one is rejected,
    the documents of the first [j] missing ingredients stay in the store,
    the remaining ones are never attempted, the error is logged once and
    the success alert is not shown. *)
Theorem add_missing_stops_at_first_rejection (l : ShoppingList)
  (inventory : list (option InventoryItem)) (recipe : Recipe)
  (ings : list Ingredient) (j : nat) (w : World) :
  ingredients recipe = Some (map Some ings) ->
  (j < List.length (missingOf inventory ings))%nat ->
  forallb hasName (firstn (S j) (missingOf inventory ings)) = true ->
  (forall k, (k < j)%nat -> oracle (net w) (clock (net w) + k) <> Rejected) ->
  oracle (net w) (clock (net w) + j) = Rejected ->
  exists added w',
    handleAddMissingIngredients (Some l) inventory recipe w = (Ok tt, w') /\
    itemDocs w' = itemDocs w ++ added /\
    map payload added =
      map (fun i => (list_id l, newShoppingItem i))
          (firstn j (missingOf inventory ings)) /\
    clock (net w') = (clock (net w) + S j)%nat /\
    alerts w' = alerts w /\
    consoleErrors w' = consoleErrors w ++ ["Error adding missing ingredients:"].
Proof.
  intros Hi Hj Hnamed Hres Hrej.
  destruct (addEach_rejected (list_id l) _ j w Hj Hnamed Hres Hrej)
    as (added & Hrun & Hmap).
  exists added. eexists. split.
  - unfold handleAddMissingIngredients, missingIngredients, bind at 1, liftResult.
    rewrite Hi, filterMissing_present. unfold tryCatch, bind.
    rewrite Hrun. unfold consoleError. cbn. reflexivity.
  - cbn. auto.
Qed.

Definition saltSaffronSumac : Recipe :=
  mkRecipe "r2" "Spice mix" "" "" "" "" ""
    (Some (map Some [mkIngredient (Some "Salt") "g";
                     mkIngredient (Some "Saffron") "g";
                     mkIngredient (Some "Sumac") "g"])) [].

(** The second write is rejected: only "Salt" reaches the list. *)
Lemma add_missing_stops_at_first_rejection_witness :
  exists added w',
    handleAddMissingIngredients (Some (mkShoppingList "L" "Groceries")) []
      saltSaffronSumac
      (mkWorld [] (mkNet 0 (fun k => match k with
                                     | 1%nat => Rejected
                                     | _ => Resolved "doc"
                                     end)) [] [])
      = (Ok tt, w') /\
    itemDocs w' = [] ++ added /\
    map payload added =
      [("L", mkShoppingItemData (Some "Salt") "Ingredients" false [])] /\
    clock (net w') = 2%nat /\
    alerts w' = [] /\
    consoleErrors w' = [] ++ ["Error adding missing ingredients:"].
Proof.
  apply (add_missing_stops_at_first_rejection
           (mkShoppingList "L" "Groceries") [] saltSaffronSumac
           [mkIngredient (Some "Salt") "g"; mkIngredient (Some "Saffron") "g";
            mkIngredient (Some "Sumac") "g"] 1).
  - reflexivity.
  - cbn. lia.
  - reflexivity.
  - intros k Hk. assert (k = 0)%nat as -> by lia. discriminate.
  - reflexivity.
Defined.

(** ** The filter of the Recipes view *)

Lemma includes_empty (s : string) : JS.includes s "" = true.
Proof. destruct s; reflexivity. Qed.

(** X5.  With the filter the page starts with (empty search, no category, stock
    toggle off) every recipe is shown, in order, and nothing is thrown, even
    for recipes whose ingredient array is missing. *)
Theorem initial_filter_shows_every_recipe
  (inventory : list (option InventoryItem)) (recipes : list Recipe) :
  filteredRecipes (mkFilterState "" "" false) inventory recipes = Ok recipes.
Proof.
  induction recipes as [|r recipes IH]; cbn [filteredRecipes]; [reflexivity|].
  rewrite IH. unfold recipePasses, matchesSearch. cbn [searchTerm JS.toLowerCase].
  rewrite includes_empty. reflexivity.
Qed.

Definition withStockToggle (fs : FilterState) (b : bool) : FilterState :=
  mkFilterState (searchTerm fs) (categoryFilter fs) b.

Lemma recipePasses_toggle (fs : FilterState)
  (inventory : list (option InventoryItem)) (r : Recipe) :
  recipePasses (withStockToggle fs true) inventory r =
    match recipePasses (withStockToggle fs false) inventory r with
    | Ok b => Ok (b && hasAllIngredientsInStock inventory r)
    | Throw e => Throw e
    end.
Proof.
  unfold recipePasses, matchesSearch, matchesCategory, matchesStock. cbn.
  repeat match goal with
         | |- context [if ?c then _ else _] => destruct c
         | |- context [match ingredients r with _ => _ end] =>
             destruct (ingredients r)
         end; cbn; rewrite ?andb_true_r, ?andb_false_r; reflexivity.
Qed.

(** X6.  Switching the stock toggle on shows exactly the recipes that were shown
    before and are fully in stock, in the same order; it throws exactly when
    the filter threw before. *)
Theorem stock_toggle_narrows (fs : FilterState)
  (inventory : list (option InventoryItem)) (recipes : list Recipe) :
  filteredRecipes (withStockToggle fs true) inventory recipes =
    match filteredRecipes (withStockToggle fs false) inventory recipes with
    | Ok shown => Ok (filter (hasAllIngredientsInStock inventory) shown)
    | Throw e => Throw e
    end.
Proof.
  induction recipes as [|r recipes IH]; cbn [filteredRecipes]; [reflexivity|].
  rewrite recipePasses_toggle, IH.
  destruct (recipePasses (withStockToggle fs false) inventory r) as [b|e];
    [|reflexivity].
  destruct (filteredRecipes (withStockToggle fs false) inventory recipes)
    as [shown|e]; [|reflexivity].
  destruct b; cbn; [|reflexivity].
  destruct (hasAllIngredientsInStock inventory r); reflexivity.
Qed.

(** X7.  The filter callback throws only a [TypeError], and it does so exactly
    for a recipe without an ingredient array whose name, description and
    cuisine do not contain the search term. *)
Theorem filter_throws_iff (fs : FilterState)
  (inventory : list (option InventoryItem)) (r : Recipe) (e : Error) :
  recipePasses fs inventory r = Throw e <->
  e = TypeError /\ ingredients r = None /\
  ~ JS.occursInCI (searchTerm fs) (name r) /\
  ~ JS.occursInCI (searchTerm fs) (description r) /\
  ~ JS.occursInCI (searchTerm fs) (cuisine r).
Proof.
  unfold recipePasses, matchesSearch, JS.occursInCI.
  rewrite <- !includes_spec.
  destruct (JS.includes (JS.toLowerCase (name r)) _);
    [split; [discriminate | intros (_ & _ & H & _); now elim H]|].
  destruct (JS.includes (JS.toLowerCase (description r)) _);
    [split; [discriminate | intros (_ & _ & _ & H & _); now elim H]|].
  destruct (JS.includes (JS.toLowerCase (cuisine r)) _);
    [split; [discriminate | intros (_ & _ & _ & _ & H); now elim H]|].
  destruct (ingredients r) as [ings|].
  - split; [discriminate | intros (_ & H & _); discriminate].
  - split.
    + intros [= <-]. repeat split; discriminate.
    + intros (-> & _). reflexivity.
Qed.

End RecipesMore.

(* ================================================================== *)
(** * Inventory: the expiration status by intervals *)
(* ================================================================== *)

Module InventoryMore.
Import Inventory InventorySpec.
Local Open Scope Z_scope.

Lemma whole_days_window (d : Z) :
  0 <= d / JS.msPerDay <= 7 <-> 0 <= d < 8 * JS.msPerDay.
Proof.
  assert (Hpos : 0 < JS.msPerDay) by (unfold JS.msPerDay; lia).
  pose proof (Z.div_mod d JS.msPerDay ltac:(lia)) as Hdm.
  pose proof (Z.mod_pos_bound d JS.msPerDay Hpos) as Hm.
  split; intros H; nia.
Qed.

(** X8.  The status of a date that parses to the instant [t] depends only on
    where [t] lies: before the current instant it is expired, from the
    current instant up to (not including) 8 days later it is expiring soon,
    from then on it is none.  The three cases exclude each other and cover
    every instant. *)
Theorem expiration_status_by_interval (parse : string -> option Z) (now : Z)
  (date : option string) (t : Z) :
  parsesTo parse date t ->
  (expirationStatus parse now date = expired <-> t < now) /\
  (expirationStatus parse now date = expiringSoon <->
     now <= t < now + 8 * JS.msPerDay) /\
  (expirationStatus parse now date = none <-> now + 8 * JS.msPerDay <= t).
Proof.
  intros Ht. unfold expirationStatus.
  rewrite (isExpired_parsed _ _ _ _ Ht), (isExpiringSoon_parsed _ _ _ _ Ht).
  pose proof (whole_days_window (t - now)) as Hw.
  assert (Hpos : 0 < JS.msPerDay) by (unfold JS.msPerDay; lia).
  destruct (t <? now) eqn:E1.
  - apply Z.ltb_lt in E1. (split; [|split]); split; intros H;
        try discriminate H; try reflexivity; lia.
  - apply Z.ltb_ge in E1.
    destruct (((t - now) / JS.msPerDay <=? 7) && ((t - now) / JS.msPerDay >=? 0))
      eqn:E2.
    + apply andb_true_iff in E2. rewrite Z.leb_le, Z.geb_le in E2.
      (split; [|split]); split; intros H;
        try discriminate H; try reflexivity; lia.
    + apply andb_false_iff in E2. rewrite Z.leb_gt, Z.geb_leb, Z.leb_gt in E2.
      (split; [|split]); split; intros H;
        try discriminate H; try reflexivity; lia.
Qed.

Lemma parses_2024_01_31 :
  parsesTo JS.dateOnlyTime (Some "2024-01-31") 1706659200000.
Proof.
  exists "2024-01-31". split; [reflexivity|]. split; [discriminate|].
  vm_compute. reflexivity.
Qed.

(** One second before 2024-01-24 begins, the date 2024-01-31 is seven days
    and one second away: inside the window of eight days. *)
Lemma expiration_status_by_interval_witness :
  expirationStatus JS.dateOnlyTime (1706054400000 - 1000) (Some "2024-01-31")
    = expiringSoon.
Proof.
  apply (proj1 (proj2 (expiration_status_by_interval JS.dateOnlyTime
                         (1706054400000 - 1000) (Some "2024-01-31")
                         1706659200000 parses_2024_01_31))).
  unfold JS.msPerDay. lia.
Defined.

End InventoryMore.

(* ================================================================== *)
(** * Menu: further properties of the totals *)
(* ================================================================== *)

Module MenuMore.
Import Menu MenuSpec.
Local Open Scope Z_scope.

Definition withRecipes (menu : MenuItem) (rs : list Recipe) : MenuItem :=
  mkMenuItem (menu_id menu) (menu_name menu) (menu_description menu)
    (menu_mealType menu) rs.

(** What the recipes contribute to the total of preparation (cooking)
    time. *)
Definition prepMinutes (rs : list Recipe) : list JS.Number :=
  map (fun r => minutes (prepTime r)) rs.

Definition cookMinutes (rs : list Recipe) : list JS.Number :=
  map (fun r => minutes (cookTime r)) rs.

Lemma sumZ_perm (l1 l2 : list Z) :
  Permutation l1 l2 -> sumZ l1 = sumZ l2.
Proof.
  unfold sumZ.
  induction 1 as [|x l1 l2 _ IH|x y l|l1 l2 l3 _ IH1 _ IH2]; cbn; lia.
Qed.

Lemma forallb_perm {A} (p : A -> bool) (l1 l2 : list A) :
  Permutation l1 l2 -> forallb p l1 = forallb p l2.
Proof.
  induction 1 as [|x l1 l2 _ IH|x y l|l1 l2 l3 _ IH1 _ IH2]; cbn.
  - reflexivity.
  - now rewrite IH.
  - destruct (p x), (p y); reflexivity.
  - congruence.
Qed.

Lemma withinExactRange_perm (l1 l2 : list JS.Number) :
  Permutation l1 l2 -> withinExactRange l1 -> withinExactRange l2.
Proof.
  intros HP [Hfin Hsum]. split.
  - now rewrite <- (forallb_perm isFinite l1 l2 HP).
  - now rewrite <- (sumZ_perm _ _ (Permutation_map _ HP)).
Qed.

Lemma sumDoubles_perm (l1 l2 : list JS.Number) :
  Permutation l1 l2 -> withinExactRange l1 -> sumDoubles l1 = sumDoubles l2.
Proof.
  intros HP H1. assert (H2 := withinExactRange_perm l1 l2 HP H1).
  rewrite !sumDoubles_exact by assumption.
  f_equal. apply sumZ_perm, Permutation_map, HP.
Qed.

Lemma withinExactRange_app (l1 l2 : list JS.Number) :
  withinExactRange (l1 ++ l2) -> withinExactRange l1 /\ withinExactRange l2.
Proof.
  intros [Hfin Hsum]. rewrite forallb_app in Hfin.
  apply andb_true_iff in Hfin. destruct Hfin as [Hf1 Hf2].
  rewrite map_app, sumZ_app in Hsum.
  assert (H1 := sumZ_abs_nonneg valueOf l1).
  assert (H2 := sumZ_abs_nonneg valueOf l2).
  split; (split; [assumption | lia]).
Qed.

Lemma sumDoubles_app (l1 l2 : list JS.Number) :
  withinExactRange (l1 ++ l2) ->
  sumDoubles (l1 ++ l2) = JS.add (sumDoubles l1) (sumDoubles l2).
Proof.
  intros H. destruct (withinExactRange_app l1 l2 H) as [H1 H2].
  rewrite !sumDoubles_exact by assumption.
  rewrite map_app, sumZ_app. cbn [JS.add].
  rewrite roundToDouble_exact; [reflexivity|].
  destruct H as [_ Hsum]. rewrite map_app, sumZ_app in Hsum.
  assert (B1 := sumZ_abs_bound valueOf l1).
  assert (B2 := sumZ_abs_bound valueOf l2). lia.
Qed.

(** X9.  As long as the magnitudes of the contributions add up to at most
    2^53, the totals do not depend on the order of the recipes in the
    menu. *)
Theorem totals_ignore_recipe_order (m1 m2 : MenuItem) :
  Permutation (recipes m1) (recipes m2) ->
  withinExactRange (prepMinutes (recipes m1)) ->
  withinExactRange (cookMinutes (recipes m1)) ->
  totalPrepTime m1 = totalPrepTime m2 /\ totalCookTime m1 = totalCookTime m2.
Proof.
  intros HP Hprep Hcook.
  rewrite !totalPrepTime_sumDoubles, !totalCookTime_sumDoubles.
  split; apply sumDoubles_perm; try assumption; apply Permutation_map, HP.
Qed.

Definition soup : Recipe :=
  mkRecipe "1" "Soup" "" "" "" "" "10 min" "25 min" [] [] "Dinner".

Definition roast : Recipe :=
  mkRecipe "2" "Roast" "" "" "" "" "20 min" "1 hour" [] [] "Dinner".

Lemma totals_ignore_recipe_order_witness :
  totalPrepTime (mkMenuItem "m" "Sunday" "" "Dinner" [soup; roast])
    = totalPrepTime (mkMenuItem "m" "Sunday" "" "Dinner" [roast; soup]) /\
  totalCookTime (mkMenuItem "m" "Sunday" "" "Dinner" [soup; roast])
    = totalCookTime (mkMenuItem "m" "Sunday" "" "Dinner" [roast; soup]).
Proof.
  apply totals_ignore_recipe_order.
  - apply perm_swap.
  - split; [reflexivity | vm_compute; discriminate].
  - split; [reflexivity | vm_compute; discriminate].
Defined.

(** X10.  A menu without recipes has totals 0, and one more recipe at the end
    adds its own minutes to the totals; as long as the magnitudes of the
    contributions add up to at most 2^53, the totals of a menu that embeds
    the recipes of two lists are the sums of the totals of the two lists. *)
Theorem totals_are_additive (menu : MenuItem) (rs1 rs2 : list Recipe)
  (r : Recipe) :
  withinExactRange (prepMinutes (rs1 ++ rs2)) ->
  withinExactRange (cookMinutes (rs1 ++ rs2)) ->
  totalPrepTime (withRecipes menu (rs1 ++ rs2))
    = JS.add (totalPrepTime (withRecipes menu rs1))
             (totalPrepTime (withRecipes menu rs2)) /\
  totalCookTime (withRecipes menu (rs1 ++ rs2))
    = JS.add (totalCookTime (withRecipes menu rs1))
             (totalCookTime (withRecipes menu rs2)) /\
  totalPrepTime (withRecipes menu []) = JS.Num 0 /\
  totalCookTime (withRecipes menu []) = JS.Num 0 /\
  totalPrepTime (withRecipes menu (rs1 ++ [r]))
    = JS.add (totalPrepTime (withRecipes menu rs1)) (minutes (prepTime r)) /\
  totalCookTime (withRecipes menu (rs1 ++ [r]))
    = JS.add (totalCookTime (withRecipes menu rs1)) (minutes (cookTime r)).
Proof.
  intros Hprep Hcook.
  split; [|split; [|split; [|split; [|split]]]].
  - rewrite !totalPrepTime_sumDoubles. cbn [withRecipes recipes].
    unfold prepMinutes in Hprep. rewrite map_app in Hprep |- *.
    now apply sumDoubles_app.
  - rewrite !totalCookTime_sumDoubles. cbn [withRecipes recipes].
    unfold cookMinutes in Hcook. rewrite map_app in Hcook |- *.
    now apply sumDoubles_app.
  - reflexivity.
  - reflexivity.
  - unfold totalPrepTime, withRecipes. cbn [recipes].
    now rewrite fold_left_app.
  - unfold totalCookTime, withRecipes. cbn [recipes].
    now rewrite fold_left_app.
Qed.

Lemma totals_are_additive_witness :
  totalPrepTime (mkMenuItem "m" "Sunday" "" "Dinner" ([soup] ++ [roast]))
    = JS.Num 30 /\
  totalCookTime (mkMenuItem "m" "Sunday" "" "Dinner" ([soup] ++ [roast]))
    = JS.Num 26.
Proof.
  destruct (totals_are_additive
              (mkMenuItem "m" "Sunday" "" "Dinner" []) [soup] [roast] soup)
    as (Hp & Hc & _).
  - split; [reflexivity | vm_compute; discriminate].
  - split; [reflexivity | vm_compute; discriminate].
  - split; [exact Hp | exact Hc].
Defined.

End MenuMore.

(* ================================================================== *)
(** * Shopping list: what each handler does to the store and the page *)
(* ================================================================== *)

Module ShoppingListMore.
Import Firestore ShoppingList ShoppingListSpec.
Local Open Scope list_scope.

Section Collation.

Variable localeCompare : string -> string -> comparison.

(** ** A rejected request *)

(** X11.  When the backend rejects the next request, no event changes the store
    or the items shown: the error is swallowed. *)
Theorem rejected_request_changes_nothing (e : Event) (w : World) :
  oracle (net w) (clock (net w)) = Rejected ->
  listDocs (after localeCompare e w) = listDocs w /\
  itemDocs (after localeCompare e w) = itemDocs w /\
  items (view (after localeCompare e w)) = items (view w).
Proof.
  intros H. unfold after.
  destruct e; cbn [handle];
    unfold fetchShoppingLists, handleAddList, chooseList, handleAddItem,
      handleSaveEdit, toggleComplete, handleSelectItem, handleDeleteSelected,
      handleDeleteItem, tryCatch, bind, readView, getDocsLists, addDocList,
      addDocItem, updateDocItem, deleteDocItem, bind, request;
    cbn beta iota;
    try destruct (currentList (view w));
    try destruct (selectedItems (view w));
    cbn [deleteEach]; unfold bind, deleteDocItem, bind, request;
    rewrite ?H; cbn; auto.
Qed.

(** ** Toggling completion *)

(** The replacement that [toggleComplete] and [handleSaveEdit] map over the
    items. *)
Definition replaceById (newer : ShoppingItem) (i : ShoppingItem)
  : ShoppingItem :=
  if String.eqb (id i) (id newer) then newer else i.

(** The field update that [toggleComplete] sends to the store. *)
Definition storeCompleted (listId : string) (item : ShoppingItem)
  (d : string * ShoppingItem) : string * ShoppingItem :=
  if isDoc listId (id item) d
  then (fst d, mkShoppingItem (id (snd d)) (name (snd d)) (category (snd d))
                 (negb (completed item)) (products (snd d)))
  else d.

Lemma toggleComplete_resolved (item : ShoppingItem) (w : World)
  (l : ShoppingListDoc) (autoId : string) :
  currentList (view w) = Some l ->
  oracle (net w) (clock (net w)) = Resolved autoId ->
  existsb (isDoc (list_id l) (id item)) (itemDocs w) = true ->
  toggleComplete localeCompare item w =
    (Ok tt,
     mkWorld (listDocs w) (map (storeCompleted (list_id l) item) (itemDocs w))
       (tick (net w)) (consoleErrors w)
       (mkView (shoppingLists (view w)) (currentList (view w))
          (sortByName localeCompare
             (map (replaceById (toggled item)) (items (view w))))
          (selectedItems (view w)))).
Proof.
  intros Hl Ho Hd.
  unfold toggleComplete, bind at 1, readView. cbn beta iota. rewrite Hl.
  unfold tryCatch, bind, updateDocItem, bind, request. rewrite Ho. cbn.
  rewrite Hd. unfold setItemDocs, setItems, setView. cbn.
  rewrite Hl. reflexivity.
Qed.

Lemma sortByName_of_sorted (l : list ShoppingItem) :
  alphabetical localeCompare l -> sortByName localeCompare l = l.
Proof.
  unfold alphabetical, sortByName.
  induction 1 as [|x l Hl IH Hx]; cbn [fold_right]; [reflexivity|].
  rewrite IH. destruct l as [|y l']; [reflexivity|]. cbn [insertByName].
  apply Forall_inv in Hx. unfold byName in Hx.
  destruct (localeCompare (name x) (name y)); congruence.
Qed.

Lemma same_id_same_item (l : list ShoppingItem) (a b : ShoppingItem) :
  NoDup (map id l) -> In a l -> In b l -> id a = id b -> a = b.
Proof.
  induction l as [|x l IH]; cbn; [tauto|].
  intros Hnd Ha Hb Hid. inversion Hnd as [|? ? Hx Hnd']; subst.
  destruct Ha as [<- | Ha], Hb as [<- | Hb]; auto.
  - elim Hx. rewrite Hid. now apply in_map.
  - elim Hx. rewrite <- Hid. now apply in_map.
Qed.

Lemma toggled_involutive (item : ShoppingItem) :
  toggled (toggled item) = item.
Proof. destruct item as [i n c b p]. unfold toggled. cbn. now rewrite negb_involutive. Qed.

Lemma replace_toggled_keeps_order (item : ShoppingItem)
  (l : list ShoppingItem) :
  NoDup (map id l) -> In item l -> alphabetical localeCompare l ->
  alphabetical localeCompare (map (replaceById (toggled item)) l).
Proof.
  intros Hnd Hin Hs.
  assert (Hname : forall i, In i l -> name (replaceById (toggled item) i) = name i).
  { intros i Hi. unfold replaceById. cbn [toggled id].
    destruct (String.eqb_spec (id i) (id item)) as [E|E]; [|reflexivity].
    now rewrite (same_id_same_item l i item Hnd Hi Hin E). }
  clear Hnd Hin. unfold alphabetical in *.
  induction Hs as [|x l Hl IH Hx]; cbn; [constructor|].
  constructor.
  - apply IH. intros i Hi. apply Hname. now right.
  - rewrite Forall_map. rewrite Forall_forall in *. intros y Hy.
    unfold byName. rewrite Hname by now left. rewrite Hname by now right.
    now apply Hx.
Qed.

Lemma replace_back (item : ShoppingItem) (l : list ShoppingItem) :
  NoDup (map id l) -> In item l ->
  map (replaceById item) (map (replaceById (toggled item)) l) = l.
Proof.
  intros Hnd Hin. rewrite map_map. rewrite <- (map_id l) at 2.
  apply map_ext_in. intros i Hi. unfold replaceById. cbn [toggled id].
  destruct (String.eqb_spec (id i) (id item)) as [E|E].
  - cbn [id]. rewrite String.eqb_refl.
    symmetry. exact (same_id_same_item l i item Hnd Hi Hin E).
  - destruct (String.eqb_spec (id i) (id item)); congruence.
Qed.

Lemma existsb_isDoc_storeCompleted (listId : string) (item : ShoppingItem)
  (docs : list (string * ShoppingItem)) :
  existsb (isDoc listId (id item)) (map (storeCompleted listId item) docs)
  = existsb (isDoc listId (id item)) docs.
Proof.
  induction docs as [|d docs IH]; cbn; [reflexivity|]. rewrite IH. f_equal.
  unfold storeCompleted. destruct (isDoc listId (id item) d) eqn:E; [|exact E].
  unfold isDoc in *. cbn. exact E.
Qed.

(** X12.  Completion is reversible: ticking an item of the list and ticking it
    again, with both updates resolved, leaves the items shown exactly as they
    were, in the same order; in between the item is shown with its flag
    flipped. *)
Theorem toggle_twice_restores_items (item : ShoppingItem) (w : World)
  (l : ShoppingListDoc) :
  currentList (view w) = Some l ->
  alphabetical localeCompare (items (view w)) ->
  NoDup (map id (items (view w))) ->
  In item (items (view w)) ->
  existsb (isDoc (list_id l) (id item)) (itemDocs w) = true ->
  oracle (net w) (clock (net w)) <> Rejected ->
  oracle (net w) (S (clock (net w))) <> Rejected ->
  let w1 := after localeCompare (ToggleComplete item) w in
  let w2 := after localeCompare (ToggleComplete (toggled item)) w1 in
  items (view w1) = map (replaceById (toggled item)) (items (view w)) /\
  In (toggled item) (items (view w1)) /\
  items (view w2) = items (view w).
Proof.
  intros Hl Hs Hnd Hin Hd H0 H1 w1 w2.
  destruct (oracle (net w) (clock (net w))) as [|a0] eqn:E0; [congruence|].
  destruct (oracle (net w) (S (clock (net w)))) as [|a1] eqn:E1; [congruence|].
  assert (Hw1 : w1 = snd (toggleComplete localeCompare item w)) by reflexivity.
  rewrite (toggleComplete_resolved item w l a0 Hl E0 Hd) in Hw1. cbn in Hw1.
  rewrite (sortByName_of_sorted _ (replace_toggled_keeps_order item _ Hnd Hin Hs))
    in Hw1.
  assert (Hitems1 : items (view w1)
                    = map (replaceById (toggled item)) (items (view w)))
    by now rewrite Hw1.
  split; [exact Hitems1|]. split.
  - rewrite Hitems1. apply in_map_iff. exists item. split; [|exact Hin].
    unfold replaceById. cbn [toggled id]. now rewrite String.eqb_refl.
  - assert (Hw2 : w2 = snd (toggleComplete localeCompare (toggled item) w1))
      by reflexivity.
    rewrite (toggleComplete_resolved (toggled item) w1 l a1) in Hw2.
    + rewrite Hw2. cbn [snd view items]. rewrite Hitems1, toggled_involutive.
      rewrite (replace_back item _ Hnd Hin).
      now apply sortByName_of_sorted.
    + now rewrite Hw1.
    + rewrite Hw1. exact E1.
    + rewrite Hw1. cbn [itemDocs toggled id].
      now rewrite existsb_isDoc_storeCompleted.
Qed.

(** ** Deleting, adding and loading *)

Lemma In_sortByName (l : list ShoppingItem) (i : ShoppingItem) :
  In i (sortByName localeCompare l) <-> In i l.
Proof.
  split; apply Permutation_in;
    [|apply Permutation_sym]; apply sortByName_perm.
Qed.

(** X13.  Deleting one item, when the request resolves, removes every item with
    that identifier from the items shown and the document from the current
    list's sub-collection, and keeps everything else. *)
Theorem delete_item_removes_it (itemId : string) (w : World)
  (l : ShoppingListDoc) :
  currentList (view w) = Some l ->
  oracle (net w) (clock (net w)) <> Rejected ->
  let w' := after localeCompare (DeleteItem itemId) w in
  (forall i, In i (items (view w')) <->
             In i (items (view w)) /\ id i <> itemId) /\
  (forall d, In d (itemDocs w') <->
             In d (itemDocs w) /\
             ~ (fst d = list_id l /\ id (snd d) = itemId)) /\
  Permutation (items (view w'))
    (filter (fun i => negb (String.eqb (id i) itemId)) (items (view w))) /\
  consoleErrors w' = consoleErrors w.
Proof.
  intros Hl Ho w'.
  destruct (oracle (net w) (clock (net w))) as [|a0] eqn:E0; [congruence|].
  assert (Hw : w' =
    mkWorld (listDocs w)
      (filter (fun d => negb (isDoc (list_id l) itemId d)) (itemDocs w))
      (tick (net w)) (consoleErrors w)
      (mkView (shoppingLists (view w)) (currentList (view w))
         (sortByName localeCompare
            (filter (fun i => negb (String.eqb (id i) itemId)) (items (view w))))
         (selectedItems (view w)))).
  { unfold w', after. cbn [handle].
    unfold handleDeleteItem, bind at 1, readView. cbn beta iota. rewrite Hl.
    unfold tryCatch, bind, deleteDocItem, bind, request. rewrite E0.
    cbn. rewrite Hl. reflexivity. }
  rewrite Hw. cbn [items view itemDocs consoleErrors].
  split; [|split; [|split]].
  - intros i. rewrite In_sortByName, filter_In, negb_true_iff.
    destruct (String.eqb_spec (id i) itemId); intuition congruence.
  - intros d. rewrite filter_In, negb_true_iff. unfold isDoc.
    destruct (String.eqb_spec (fst d) (list_id l)),
             (String.eqb_spec (id (snd d)) itemId); cbn; intuition congruence.
  - apply sortByName_perm.
  - reflexivity.
Qed.

(** X14.  Adding an item, when the request resolves, stores one new document
    under the identifier the backend assigned, in the current list, and
    shows the items of before plus that one item. *)
Theorem add_item_appears_once (newItem : NewItem) (w : World)
  (l : ShoppingListDoc) (newId : string) :
  currentList (view w) = Some l ->
  oracle (net w) (clock (net w)) = Resolved newId ->
  let w' := after localeCompare (AddItem newItem) w in
  let added := mkShoppingItem newId (new_name newItem) (new_category newItem)
                 (new_completed newItem) (new_products newItem) in
  itemDocs w' = itemDocs w ++ [(list_id l, added)] /\
  Permutation (items (view w')) (added :: items (view w)) /\
  List.length (items (view w')) = S (List.length (items (view w))).
Proof.
  intros Hl Ho w' added.
  assert (Hw : w' =
    mkWorld (listDocs w) (itemDocs w ++ [(list_id l, added)])
      (tick (net w)) (consoleErrors w)
      (mkView (shoppingLists (view w)) (currentList (view w))
         (sortByName localeCompare (items (view w) ++ [added]))
         (selectedItems (view w)))).
  { unfold w', after. cbn [handle].
    unfold handleAddItem, bind at 1, readView. cbn beta iota. rewrite Hl.
    unfold tryCatch, bind, addDocItem, bind, request. rewrite Ho.
    cbn. rewrite Hl. reflexivity. }
  rewrite Hw. cbn [items view itemDocs].
  assert (Hp : Permutation (sortByName localeCompare (items (view w) ++ [added]))
                           (added :: items (view w))).
  { rewrite sortByName_perm. apply Permutation_sym, Permutation_cons_append. }
  split; [reflexivity|]. split; [exact Hp|].
  now rewrite (Permutation_length Hp).
Qed.

(** X15.  Mounting the page, when the store has a first list and both requests
    resolve, makes that list the current one and shows each of its stored
    items exactly once; the items of other lists are not shown. *)
Theorem mount_shows_first_list (w : World) (first : ShoppingListDoc)
  (others : list ShoppingListDoc) :
  listDocs w = first :: others ->
  oracle (net w) (clock (net w)) <> Rejected ->
  oracle (net w) (S (clock (net w))) <> Rejected ->
  let w' := after localeCompare Mount w in
  currentList (view w') = Some first /\
  shoppingLists (view w') = first :: others /\
  Permutation (items (view w'))
    (map snd (filter (inList (list_id first)) (itemDocs w))) /\
  (forall i, In i (items (view w')) <-> In (list_id first, i) (itemDocs w)) /\
  itemDocs w' = itemDocs w.
Proof.
  intros Hlists H0 H1 w'.
  destruct (oracle (net w) (clock (net w))) as [|a0] eqn:E0; [congruence|].
  destruct (oracle (net w) (S (clock (net w)))) as [|a1] eqn:E1; [congruence|].
  assert (Hw : w' =
    mkWorld (listDocs w) (itemDocs w) (tick (tick (net w))) (consoleErrors w)
      (mkView (first :: others) (Some first)
         (sortByName localeCompare
            (map snd (filter (inList (list_id first)) (itemDocs w))))
         (selectedItems (view w)))).
  { unfold w', after. cbn [handle].
    unfold fetchShoppingLists, tryCatch, bind at 1, getDocsLists, bind at 1,
      request.
    rewrite E0. cbn. rewrite Hlists. cbn.
    unfold fetchItems, tryCatch, bind, getDocsItems, bind, request. cbn.
    rewrite E1. reflexivity. }
  rewrite Hw. cbn [items view itemDocs currentList shoppingLists].
  split; [reflexivity|]. split; [reflexivity|].
  split; [apply sortByName_perm|]. split; [|reflexivity].
  intros i. rewrite In_sortByName, in_map_iff. split.
  - intros ([k d] & <- & Hd). apply filter_In in Hd. destruct Hd as [Hd Hk].
    unfold inList in Hk. cbn in *. apply String.eqb_eq in Hk. now subst k.
  - intros Hi. exists (list_id first, i). split; [reflexivity|].
    apply filter_In. split; [exact Hi|]. unfold inList. cbn.
    apply String.eqb_refl.
Qed.

(** ** The selection *)

(** X16.  Ticking the selection box of an item flips whether its identifier is
    selected, leaves every other identifier as it was, and touches neither
    the store nor the items. *)
Theorem select_item_flips_membership (itemId : string) (w : World) :
  let w' := after localeCompare (SelectItem itemId) w in
  (In itemId (selectedItems (view w')) <-> ~ In itemId (selectedItems (view w))) /\
  (forall other, other <> itemId ->
     (In other (selectedItems (view w')) <-> In other (selectedItems (view w)))) /\
  items (view w') = items (view w) /\
  itemDocs w' = itemDocs w /\
  net w' = net w.
Proof.
  cbv zeta. unfold after. cbn.
  set (sel := selectedItems (view w)).
  destruct (existsb (String.eqb itemId) sel) eqn:E.
  - assert (Hin : In itemId sel).
    { apply existsb_exists in E. destruct E as (x & Hx & Hex).
      apply String.eqb_eq in Hex. now subst x. }
    split; [|split; [|auto]].
    + rewrite filter_In, negb_true_iff, String.eqb_refl.
      split; [intros [_ H]; discriminate | tauto].
    + intros other Hne. rewrite filter_In, negb_true_iff.
      destruct (String.eqb_spec other itemId); intuition congruence.
  - assert (Hnin : ~ In itemId sel).
    { intros Hin. apply Bool.not_true_iff_false in E. apply E.
      apply existsb_exists. exists itemId. split; [exact Hin|].
      apply String.eqb_refl. }
    split; [|split; [|auto]].
    + rewrite in_app_iff. cbn. tauto.
    + intros other Hne. rewrite in_app_iff. cbn. intuition congruence.
Qed.

(** ** Deleting the selection *)

(** The documents left after those of list [listId] with an identifier in
    [ids] are gone. *)
Definition withoutDocs (listId : string) (ids : list string)
  (docs : list (string * ShoppingItem)) : list (string * ShoppingItem) :=
  filter (fun d => negb (existsb (fun i => isDoc listId i d) ids)) docs.

Lemma withoutDocs_cons (listId i : string) (ids : list string)
  (docs : list (string * ShoppingItem)) :
  withoutDocs listId ids (filter (fun d => negb (isDoc listId i d)) docs)
  = withoutDocs listId (i :: ids) docs.
Proof.
  unfold withoutDocs. induction docs as [|d docs IH]; cbn; [reflexivity|].
  destruct (isDoc listId i d); cbn; rewrite IH; reflexivity.
Qed.

Lemma In_withoutDocs (listId : string) (ids : list string)
  (docs : list (string * ShoppingItem)) (d : string * ShoppingItem) :
  In d (withoutDocs listId ids docs) <->
  In d docs /\ ~ (fst d = listId /\ In (id (snd d)) ids).
Proof.
  unfold withoutDocs. rewrite filter_In, negb_true_iff.
  rewrite <- Bool.not_true_iff_false, existsb_exists. unfold isDoc.
  split; intros [Hd Hn]; (split; [exact Hd|]).
  - intros [Hl Hi]. apply Hn. exists (id (snd d)). split; [exact Hi|].
    now rewrite Hl, !String.eqb_refl.
  - intros (i & Hi & Hm). apply andb_true_iff in Hm.
    rewrite !String.eqb_eq in Hm. destruct Hm as [Hl Hid]. apply Hn.
    split; [exact Hl | now rewrite Hid].
Qed.

Lemma deleteEach_run (listId : string) (ids : list string) :
  forall w,
    (forall k, (k < List.length ids)%nat ->
               oracle (net w) (clock (net w) + k) <> Rejected) ->
    deleteEach listId ids w =
      (Ok tt,
       mkWorld (listDocs w) (withoutDocs listId ids (itemDocs w))
         (mkNet (clock (net w) + List.length ids) (oracle (net w)))
         (consoleErrors w) (view w)).
Proof.
  induction ids as [|i ids IH]; intros w Hres.
  - cbn. unfold ret, withoutDocs. cbn. rewrite Nat.add_0_r.
    rewrite forallb_filter_id by (apply forallb_forall; intros; reflexivity).
    destruct w as [a b [c o] d e]. reflexivity.
  - cbn [deleteEach]. unfold bind at 1, deleteDocItem, bind, request.
    pose proof (Hres 0%nat ltac:(cbn; lia)) as H0. rewrite Nat.add_0_r in H0.
    destruct (oracle (net w) (clock (net w))) as [|a0] eqn:E0; [congruence|].
    unfold setItemDocs. cbn beta iota. rewrite IH.
    + cbn [listDocs itemDocs net consoleErrors view tick clock oracle].
      rewrite withoutDocs_cons.
      replace (S (clock (net w)) + List.length ids)%nat
        with (clock (net w) + S (List.length ids))%nat by lia.
      reflexivity.
    + intros k Hk. cbn.
      replace (S (clock (net w) + k)) with (clock (net w) + S k)%nat by lia.
      apply Hres. cbn. lia.
Qed.

Lemma deleteEach_stops (listId : string) (ids : list string) :
  forall (j : nat) (w : World),
    (j < List.length ids)%nat ->
    (forall k, (k < j)%nat -> oracle (net w) (clock (net w) + k) <> Rejected) ->
    oracle (net w) (clock (net w) + j) = Rejected ->
    deleteEach listId ids w =
      (Throw FirestoreError,
       mkWorld (listDocs w) (withoutDocs listId (firstn j ids) (itemDocs w))
         (mkNet (clock (net w) + S j) (oracle (net w)))
         (consoleErrors w) (view w)).
Proof.
  induction ids as [|i ids IH]; intros j w Hj Hres Hrej; [cbn in Hj; lia|].
  cbn [deleteEach]. unfold bind at 1, deleteDocItem, bind, request.
  destruct j as [|j].
  - rewrite Nat.add_0_r in Hrej. rewrite Hrej. cbn. unfold withoutDocs. cbn.
    rewrite forallb_filter_id by (apply forallb_forall; intros; reflexivity).
    unfold tick. now rewrite Nat.add_1_r.
  - pose proof (Hres 0%nat ltac:(lia)) as H0. rewrite Nat.add_0_r in H0.
    destruct (oracle (net w) (clock (net w))) as [|a0] eqn:E0; [congruence|].
    unfold setItemDocs. cbn beta iota. rewrite (IH j).
    + cbn [listDocs itemDocs net consoleErrors view tick clock oracle].
      rewrite withoutDocs_cons.
      replace (S (clock (net w)) + S j)%nat
        with (clock (net w) + S (S j))%nat by lia.
      reflexivity.
    + cbn in Hj. lia.
    + intros k Hk. cbn.
      replace (S (clock (net w) + k)) with (clock (net w) + S k)%nat by lia.
      apply Hres. lia.
    + cbn. replace (S (clock (net w) + j))
        with (clock (net w) + S j)%nat by lia. exact Hrej.
Qed.

(** X17.  Deleting the selection, when every request resolves, removes the
    selected items from the items shown and their documents from the current
    list, keeps all the others, and clears the selection. *)
Theorem delete_selected_removes_selection (w : World) (l : ShoppingListDoc)
  (first : string) (rest : list string) :
  currentList (view w) = Some l ->
  selectedItems (view w) = first :: rest ->
  (forall k, (k < S (List.length rest))%nat ->
             oracle (net w) (clock (net w) + k) <> Rejected) ->
  let w' := after localeCompare DeleteSelected w in
  (forall i, In i (items (view w')) <->
             In i (items (view w)) /\ ~ In (id i) (first :: rest)) /\
  (forall d, In d (itemDocs w') <->
             In d (itemDocs w) /\
             ~ (fst d = list_id l /\ In (id (snd d)) (first :: rest))) /\
  selectedItems (view w') = [] /\
  consoleErrors w' = consoleErrors w.
Proof.
  intros Hl Hsel Hres w'.
  assert (Hw : w' =
    mkWorld (listDocs w) (withoutDocs (list_id l) (first :: rest) (itemDocs w))
      (mkNet (clock (net w) + S (List.length rest)) (oracle (net w)))
      (consoleErrors w)
      (mkView (shoppingLists (view w)) (currentList (view w))
         (sortByName localeCompare
            (filter (fun item => negb (existsb (String.eqb (id item))
                                               (first :: rest)))
                    (items (view w))))
         [])).
  { unfold w', after. cbn [handle].
    unfold handleDeleteSelected, bind at 1, readView. cbn beta iota.
    rewrite Hl, Hsel. unfold tryCatch, bind at 1, bind at 1.
    rewrite (deleteEach_run (list_id l) (first :: rest) w Hres).
    cbn. rewrite Hl. reflexivity. }
  rewrite Hw. cbn [items view itemDocs selectedItems consoleErrors].
  split; [|split; [|split; reflexivity]].
  - intros i. rewrite In_sortByName, filter_In, negb_true_iff.
    rewrite <- Bool.not_true_iff_false, existsb_exists.
    split; intros [Hi Hn]; (split; [exact Hi|]).
    + intros Hin. apply Hn. exists (id i). split; [exact Hin|].
      apply String.eqb_refl.
    + intros (x & Hx & Hex). apply String.eqb_eq in Hex. apply Hn.
      now rewrite Hex.
  - intros d. apply In_withoutDocs.
Qed.

(** X18.  Deleting the selection has no rollback.  When the first [j] deletions
    resolve and the next one is rejected, the first [j] selected documents
    are gone from the store, but the page still shows every item and keeps
    the selection; the error is logged. *)
Theorem delete_selected_stops_at_first_rejection (w : World)
  (l : ShoppingListDoc) (first : string) (rest : list string) (j : nat) :
  currentList (view w) = Some l ->
  selectedItems (view w) = first :: rest ->
  (j < S (List.length rest))%nat ->
  (forall k, (k < j)%nat -> oracle (net w) (clock (net w) + k) <> Rejected) ->
  oracle (net w) (clock (net w) + j) = Rejected ->
  let w' := after localeCompare DeleteSelected w in
  view w' = view w /\
  (forall d, In d (itemDocs w') <->
             In d (itemDocs w) /\
             ~ (fst d = list_id l /\ In (id (snd d)) (firstn j (first :: rest)))) /\
  consoleErrors w' = consoleErrors w ++ ["Error deleting selected items:"].
Proof.
  intros Hl Hsel Hj Hres Hrej w'.
  assert (Hw : w' =
    mkWorld (listDocs w)
      (withoutDocs (list_id l) (firstn j (first :: rest)) (itemDocs w))
      (mkNet (clock (net w) + S j) (oracle (net w)))
      (consoleErrors w ++ ["Error deleting selected items:"])
      (view w)).
  { unfold w', after. cbn [handle].
    unfold handleDeleteSelected, bind at 1, readView. cbn beta iota.
    rewrite Hl, Hsel. unfold tryCatch, bind at 1, bind at 1.
    rewrite (deleteEach_stops (list_id l) (first :: rest) j w Hj Hres Hrej).
    reflexivity. }
  rewrite Hw. cbn [view itemDocs consoleErrors].
  split; [reflexivity|]. split; [|reflexivity].
  intros d. apply In_withoutDocs.
Qed.

End Collation.




Definition offline : World :=
  mkWorld [groceries] [("L1", bananas); ("L1", apples)]
    (mkNet 0 (fun _ => Rejected)) []
    (mkView [groceries] (Some groceries) [apples; bananas] []).

Lemma rejected_request_changes_nothing_witness :
  listDocs (after codeUnitCompare (DeleteItem "a") offline) = [groceries] /\
  itemDocs (after codeUnitCompare (DeleteItem "a") offline)
    = [("L1", bananas); ("L1", apples)] /\
  items (view (after codeUnitCompare (DeleteItem "a") offline))
    = [apples; bananas].
Proof.
  apply (rejected_request_changes_nothing codeUnitCompare (DeleteItem "a")
           offline).
  reflexivity.
Defined.

(** ** The handlers at work on the fruit list *)

Definition online : World :=
  mkWorld [groceries] [("L1", bananas); ("L1", apples)]
    (mkNet 0 (fun _ => Resolved "new-1")) []
    (mkView [groceries] (Some groceries) [apples; bananas] []).

Lemma fruit_alphabetical : alphabetical codeUnitCompare [apples; bananas].
Proof.
  repeat constructor. unfold byName. vm_compute. discriminate.
Qed.

Lemma fruit_ids_distinct : NoDup (map id [apples; bananas]).
Proof.
  repeat constructor; cbn; intuition discriminate.
Qed.

Lemma always_resolved (w : World) (k : nat) :
  oracle (net w) = (fun _ => Resolved "new-1") ->
  oracle (net w) k <> Rejected.
Proof. intros ->. discriminate. Qed.

Lemma toggle_twice_restores_items_witness :
  items (view (after codeUnitCompare (ToggleComplete (toggled bananas))
                 (after codeUnitCompare (ToggleComplete bananas) online)))
  = [apples; bananas].
Proof.
  apply (proj2 (proj2 (toggle_twice_restores_items codeUnitCompare bananas
                         online groceries eq_refl fruit_alphabetical
                         fruit_ids_distinct (or_intror (or_introl eq_refl))
                         eq_refl (always_resolved online 0 eq_refl)
                         (always_resolved online 1 eq_refl)))).
Defined.

Lemma delete_item_removes_it_witness :
  Permutation (items (view (after codeUnitCompare (DeleteItem "a") online)))
    [bananas].
Proof.
  apply (proj1 (proj2 (proj2 (delete_item_removes_it codeUnitCompare "a"
                                online groceries eq_refl
                                (always_resolved online 0 eq_refl))))).
Defined.

Definition cherries : NewItem := mkNewItem "Cherries" "Fruit" false [].

Lemma add_item_appears_once_witness :
  itemDocs (after codeUnitCompare (AddItem cherries) online)
  = [("L1", bananas); ("L1", apples);
     ("L1", mkShoppingItem "new-1" "Cherries" "Fruit" false [])].
Proof.
  apply (proj1 (add_item_appears_once codeUnitCompare cherries online
                  groceries "new-1" eq_refl eq_refl)).
Defined.

Definition beforeMount : World :=
  mkWorld [groceries; mkShoppingListDoc "L2" "Hardware"]
    [("L1", bananas); ("L2", mkShoppingItem "n" "Nails" "Tools" false []);
     ("L1", apples)]
    (mkNet 0 (fun _ => Resolved "new-1")) [] initialView.

Lemma mount_shows_first_list_witness :
  Permutation (items (view (after codeUnitCompare Mount beforeMount)))
    [bananas; apples].
Proof.
  apply (proj1 (proj2 (proj2 (mount_shows_first_list codeUnitCompare
                                beforeMount groceries
                                [mkShoppingListDoc "L2" "Hardware"] eq_refl
                                (always_resolved beforeMount 0 eq_refl)
                                (always_resolved beforeMount 1 eq_refl))))).
Defined.

Definition bothSelected (answers : nat -> Reply) : World :=
  mkWorld [groceries] [("L1", bananas); ("L1", apples)]
    (mkNet 0 answers) []
    (mkView [groceries] (Some groceries) [apples; bananas] ["a"; "b"]).

Lemma delete_selected_removes_selection_witness :
  selectedItems (view (after codeUnitCompare DeleteSelected
                         (bothSelected (fun _ => Resolved "ok")))) = [].
Proof.
  refine (proj1 (proj2 (proj2 (delete_selected_removes_selection
                                codeUnitCompare
                                (bothSelected (fun _ => Resolved "ok"))
                                groceries "a" ["b"] eq_refl eq_refl _)))).
  intros k _. discriminate.
Defined.

(** The second deletion is rejected: Apples is gone from the store and both
    fruits are still shown. *)
Lemma delete_selected_stops_at_first_rejection_witness :
  view (after codeUnitCompare DeleteSelected
          (bothSelected (fun k => match k with
                                  | O => Resolved "ok"
                                  | S _ => Rejected
                                  end)))
  = mkView [groceries] (Some groceries) [apples; bananas] ["a"; "b"].
Proof.
  refine (proj1 (delete_selected_stops_at_first_rejection codeUnitCompare
                   (bothSelected (fun k => match k with
                                           | O => Resolved "ok"
                                           | S _ => Rejected
                                           end))
                   groceries "a" ["b"] 1 eq_refl eq_refl _ _ _)).
  - cbn. lia.
  - intros k Hk. assert (k = 0)%nat as -> by lia. discriminate.
  - reflexivity.
Defined.

End ShoppingListMore.

(* ================================================================== *)
(** * Calendar: scheduling followed by a reload *)
(* ================================================================== *)

Module CalendarMore.
Import Firestore Calendar CalendarSpec.
Local Open Scope list_scope.

(** The world after a reload whose list request resolves. *)
Lemma fetch_resolved (w : World) :
  oracle (net w) (clock (net w)) <> Rejected ->
  exists errs,
    snd (fetchCalendarEntries w) =
      mkWorld (calendarDocs w) (menuDocs w)
        (mkNet (S (clock (net w)) + List.length (calendarDocs w))
               (oracle (net w)))
        errs
        (loadedFrom (oracle (net w)) (menuDocs w) (S (clock (net w)))
                    (calendarDocs w)).
Proof.
  intros Ho.
  unfold fetchCalendarEntries, tryCatch, bind at 1, getDocsCalendar,
    bind at 1, request.
  destruct (oracle (net w) (clock (net w))) as [|autoId] eqn:E; [congruence|].
  cbn. unfold bind at 1.
  match goal with |- context [promiseAll loadEntry _ ?w1] =>
    destruct (promiseAll_run (calendarDocs w) w1)
      as (errs & ys & Hrun & Hys) end.
  cbn in Hrun, Hys. rewrite Hrun. cbn. rewrite Hys. now exists errs.
Qed.


Definition sundayMenu : MenuData := mkMenuData "Sunday dinner" "Roast" [].

Definition oneMenu : World :=
  mkWorld [] [("m1", sundayMenu)] (mkNet 0 (fun _ => Resolved "cal-1")) [] [].


(** The place of the new record is the place of its identifier: a record
    saved with the identifier "b" is shown between "a" and "c" after the
    reload, although it was shown last right after the save. *)
Example reload_orders_by_identifier :
  let w := mkWorld [("a", mkCalendarData "2024-01-01" "m1");
                    ("c", mkCalendarData "2024-01-03" "m1")]
             [("m1", sundayMenu)] (mkNet 0 (fun _ => Resolved "b")) [] [] in
  map entry_id
    (calendarEntries
       (snd (fetchCalendarEntries
               (snd (handleSaveMenu "2024-01-02" "m1" w)))))
  = ["a"; "b"; "c"].
Proof. reflexivity. Qed.

(** X20.  Scheduling an identifier that names no menu: the record is stored and an
    entry without menu fields is shown, but after a reload no entry for that
    identifier is shown, while the record stays in the store. *)
Theorem unknown_menu_vanishes_on_reload (dateText menuId newId : string)
  (w : World) :
  lookupDoc (menuDocs w) menuId = None ->
  oracle (net w) (clock (net w)) = Resolved newId ->
  oracle (net w) (S (clock (net w))) <> Rejected ->
  oracle (net w) (2 + clock (net w)) <> Rejected ->
  let w1 := snd (handleSaveMenu dateText menuId w) in
  let w2 := snd (fetchCalendarEntries w1) in
  calendarEntries w1 =
    calendarEntries w
      ++ [mkCalendarEntry newId dateText menuId (mkMenuItem menuId None)] /\
  (forall e, In e (calendarEntries w2) -> entry_menuId e <> menuId) /\
  In (newId, mkCalendarData dateText menuId) (calendarDocs w2).
Proof.
  intros Hm H0 H1 H2 w1 w2.
  destruct (oracle (net w) (S (clock (net w)))) as [|a1] eqn:E1; [congruence|].
  assert (Hw1 : w1 =
    mkWorld (insertDoc newId (mkCalendarData dateText menuId) (calendarDocs w))
      (menuDocs w) (tick (tick (net w))) (consoleErrors w)
      (calendarEntries w
         ++ [mkCalendarEntry newId dateText menuId (mkMenuItem menuId None)])).
  { unfold w1, handleSaveMenu, readCalendarEntries, tryCatch, bind at 1.
    unfold bind at 1, addDocCalendar, bind at 1, request. rewrite H0. cbn.
    unfold bind at 1, getDocMenu, bind at 1, request. cbn. rewrite E1. cbn.
    rewrite Hm. reflexivity. }
  split; [now rewrite Hw1|].
  destruct (fetch_resolved w1) as (errs & Hw2).
  { rewrite Hw1. cbn. exact H2. }
  unfold w2. rewrite Hw2, Hw1. cbn [calendarEntries calendarDocs menuDocs net
    tick clock oracle]. split.
  - intros e He. apply In_loadedFrom in He. destruct He as (k & d & _ & Hl).
    apply loaded_Some in Hl. destruct Hl as (_ & f & Hf & ->).
    cbn. intros Heq. rewrite Heq in Hf. congruence.
  - apply In_insertDoc. now left.
Qed.

Lemma unknown_menu_vanishes_on_reload_witness :
  In ("cal-1", mkCalendarData "2024-01-21" "ghost")
     (calendarDocs
        (snd (fetchCalendarEntries
                (snd (handleSaveMenu "2024-01-21" "ghost" oneMenu))))).
Proof.
  refine (proj2 (proj2 (unknown_menu_vanishes_on_reload "2024-01-21" "ghost"
                          "cal-1" oneMenu eq_refl eq_refl _ _)));
    discriminate.
Defined.

Lemma loadedFrom_complete (answers : nat -> Reply)
  (menus : Collection MenuData) (docs : Collection CalendarData) :
  forall k,
    (forall j, (j < List.length docs)%nat -> answers (k + j) <> Rejected) ->
    (forall d, In d docs -> lookupDoc menus (menuId (snd d)) <> None) ->
    map entry_id (loadedFrom answers menus k docs) = map fst docs /\
    map entry_menuId (loadedFrom answers menus k docs)
      = map (fun d => menuId (snd d)) docs.
Proof.
  induction docs as [|d docs IH]; intros k Hres Hex; cbn [loadedFrom map];
    [split; reflexivity|].
  pose proof (Hres 0%nat ltac:(cbn; lia)) as H0. rewrite Nat.add_0_r in H0.
  pose proof (Hex d (or_introl eq_refl)) as Hd.
  unfold loaded. destruct (answers k); [congruence|].
  destruct (lookupDoc menus (menuId (snd d))) as [f|]; [|congruence].
  destruct (IH (S k)) as [IH1 IH2].
  - intros j Hj. replace (S k + j) with (k + S j) by lia. apply Hres. cbn. lia.
  - intros d' Hd'. apply Hex. now right.
  - cbn [map entryWith entry_id entry_menuId]. now rewrite IH1, IH2.
Qed.

(** X21.  The load shows exactly one entry per record, in the order of the
    records, when every record names an existing menu and every request
    resolves. *)
Theorem load_is_complete_when_menus_exist (w : World) :
  (forall j, (j <= List.length (calendarDocs w))%nat ->
             oracle (net w) (clock (net w) + j) <> Rejected) ->
  (forall d, In d (calendarDocs w) ->
             lookupDoc (menuDocs w) (menuId (snd d)) <> None) ->
  let w' := snd (fetchCalendarEntries w) in
  map entry_id (calendarEntries w') = map fst (calendarDocs w) /\
  map entry_menuId (calendarEntries w')
    = map (fun d => menuId (snd d)) (calendarDocs w) /\
  List.length (calendarEntries w') = List.length (calendarDocs w).
Proof.
  intros Hres Hex w'.
  destruct (fetch_resolved w) as (errs & Hw).
  { specialize (Hres 0%nat ltac:(lia)). now rewrite Nat.add_0_r in Hres. }
  unfold w'. rewrite Hw. cbn [calendarEntries].
  destruct (loadedFrom_complete (oracle (net w)) (menuDocs w) (calendarDocs w)
              (S (clock (net w)))) as [H1 H2].
  - intros j Hj. replace (S (clock (net w)) + j)
      with (clock (net w) + S j) by lia. apply Hres. lia.
  - exact Hex.
  - split; [exact H1|]. split; [exact H2|].
    rewrite <- (length_map entry_id), H1. apply length_map.
Qed.

Definition twoRecords : World :=
  mkWorld [("c1", mkCalendarData "2024-01-21" "m1");
           ("c2", mkCalendarData "2024-01-22" "m1")]
    [("m1", sundayMenu)] (mkNet 0 (fun _ => Resolved "ok")) [] [].

Lemma load_is_complete_when_menus_exist_witness :
  map entry_id (calendarEntries (snd (fetchCalendarEntries twoRecords)))
  = ["c1"; "c2"].
Proof.
  refine (proj1 (load_is_complete_when_menus_exist twoRecords _ _)).
  - intros j _. discriminate.
  - intros d [<- | [<- | []]]; discriminate.
Defined.

End CalendarMore.

(* ================================================================== *)
(** * Sets of strings *)
(* ================================================================== *)

Module JSSetFacts.
Local Open Scope list_scope.

Lemma has_In (s : list string) (x : string) :
  JSSet.has s x = true <-> In x s.
Proof.
  unfold JSSet.has. rewrite existsb_exists. split.
  - intros (y & Hy & E). apply String.eqb_eq in E. now subst y.
  - intros H. exists x. split; [exact H | apply String.eqb_refl].
Qed.

Lemma In_add (s : list string) (x y : string) :
  In y (JSSet.add s x) <-> In y s \/ y = x.
Proof.
  unfold JSSet.add. destruct (JSSet.has s x) eqn:E.
  - apply has_In in E. split; [now left | intros [H | ->]; assumption].
  - rewrite in_app_iff. cbn. intuition.
Qed.

Lemma NoDup_add (s : list string) (x : string) :
  NoDup s -> NoDup (JSSet.add s x).
Proof.
  intros H. unfold JSSet.add. destruct (JSSet.has s x) eqn:E; [exact H|].
  assert (Hx : ~ In x s).
  { intros Hin. apply has_In in Hin. congruence. }
  apply NoDup_app; [exact H | repeat constructor; intros [] |].
  intros y Hy [<- | []]. contradiction.
Qed.

Lemma In_delete (s : list string) (x y : string) :
  In y (JSSet.delete s x) <-> In y s /\ y <> x.
Proof.
  unfold JSSet.delete. rewrite filter_In, negb_true_iff.
  destruct (String.eqb_spec y x); intuition congruence.
Qed.

Lemma fold_add (xs : list string) :
  forall acc,
    NoDup acc ->
    NoDup (fold_left JSSet.add xs acc) /\
    forall y, In y (fold_left JSSet.add xs acc) <-> In y acc \/ In y xs.
Proof.
  induction xs as [|x xs IH]; intros acc Hacc; cbn.
  - split; [exact Hacc | intros y; tauto].
  - destruct (IH (JSSet.add acc x) (NoDup_add acc x Hacc)) as [Hnd Hin].
    split; [exact Hnd|]. intros y. rewrite Hin, In_add. intuition.
Qed.

Lemma ofArray_spec (xs : list string) :
  NoDup (JSSet.ofArray xs) /\ forall y, In y (JSSet.ofArray xs) <-> In y xs.
Proof.
  destruct (fold_add xs [] (NoDup_nil _)) as [Hnd Hin].
  split; [exact Hnd|]. intros y. rewrite (Hin y). cbn. tauto.
Qed.

End JSSetFacts.

(* ================================================================== *)
(** * Inventory page and menu dialogs: filters, categories, edits *)
(* ================================================================== *)

Module PagesMore.
Import Firestore JSSetFacts.
Local Open Scope list_scope.

Lemma includes_anything_empty (s : string) : JS.includes s "" = true.
Proof. destruct s; reflexivity. Qed.

Lemma filter_all {A} (f : A -> bool) (l : list A) :
  (forall x, f x = true) -> filter f l = l.
Proof.
  intros H. induction l as [|x l IH]; cbn; [reflexivity|].
  now rewrite H, IH.
Qed.

(** X22.  The Inventory page, the Menu page and the recipe selection dialog start
    with an empty search and no category: they then show every record, in
    order. *)
Theorem views_start_unfiltered (inventory : list InventoryPage.InventoryItem)
  (menus : list Menu.MenuItem) (available : list Menu.Recipe) :
  InventoryPage.filteredInventory "" "" inventory = inventory /\
  MenuPage.filteredMenus "" "" menus = menus /\
  RecipeSelectionModal.filteredRecipes "" "" available = available.
Proof.
  unfold InventoryPage.filteredInventory, MenuPage.filteredMenus,
    RecipeSelectionModal.filteredRecipes.
  repeat split; apply filter_all; intros x; cbn;
    rewrite !includes_anything_empty; reflexivity.
Qed.

Lemma categories_spec (inventory : list InventoryPage.InventoryItem) :
  NoDup (InventoryPage.categories inventory) /\
  forall c,
    In c (InventoryPage.categories inventory) <->
    exists item,
      In item inventory /\
      InventoryPage.category (InventoryPage.data item) = c.
Proof.
  unfold InventoryPage.categories.
  destruct (ofArray_spec
              (map (fun item => InventoryPage.category (InventoryPage.data item))
                   inventory)) as [Hnd Hin].
  split; [exact Hnd|]. intros c. rewrite Hin, in_map_iff.
  split; intros (item & H1 & H2); exists item; auto.
Qed.

(** X23.  The category drop-down of the Inventory page lists each category that
    occurs in the inventory, and lists it once; the drop-down of the recipe
    selection dialog does the same for the catalogue. *)
Theorem categories_listed_once (inventory : list InventoryPage.InventoryItem)
  (available : list Menu.Recipe) :
  (NoDup (InventoryPage.categories inventory) /\
   forall c,
     In c (InventoryPage.categories inventory) <->
     exists item,
       In item inventory /\
       InventoryPage.category (InventoryPage.data item) = c) /\
  (NoDup (RecipeSelectionModal.categories available) /\
   forall c,
     In c (RecipeSelectionModal.categories available) <->
     exists r, In r available /\ Menu.category r = c).
Proof.
  split; [apply categories_spec|].
  unfold RecipeSelectionModal.categories.
  destruct (ofArray_spec (map Menu.category available)) as [Hnd Hin].
  split; [exact Hnd|]. intros c. rewrite Hin, in_map_iff.
  split; intros (r & H1 & H2); exists r; auto.
Qed.

(** X24.  Choosing a category offered by the drop-down, with an empty search,
    never gives an empty page; and a category that is not the empty string
    shows only items of that category. *)
Theorem offered_category_shows_items
  (inventory : list InventoryPage.InventoryItem) (c : string) :
  In c (InventoryPage.categories inventory) ->
  (exists item, In item (InventoryPage.filteredInventory "" c inventory)) /\
  (c <> "" ->
   forall item,
     In item (InventoryPage.filteredInventory "" c inventory) ->
     InventoryPage.category (InventoryPage.data item) = c).
Proof.
  intros Hc. apply categories_spec in Hc.
  destruct Hc as (item & Hin & Hcat).
  unfold InventoryPage.filteredInventory. split.
  - exists item. apply filter_In. split; [exact Hin|].
    cbn [JS.toLowerCase]. rewrite includes_anything_empty, Hcat.
    rewrite String.eqb_refl, orb_true_r. reflexivity.
  - intros Hne i Hi. apply filter_In in Hi. destruct Hi as [_ Hi].
    apply andb_true_iff in Hi. destruct Hi as [_ Hi].
    destruct c as [|a c']; [congruence|]. cbn in Hi.
    now apply String.eqb_eq in Hi.
Qed.

Definition rice : InventoryPage.InventoryItem :=
  InventoryPage.mkInventoryItem "i1"
    (InventoryPage.mkItemData "Rice" 2%float "kg" "Grains" None None None).

Definition milk : InventoryPage.InventoryItem :=
  InventoryPage.mkInventoryItem "i2"
    (InventoryPage.mkItemData "Milk" 1%float "l" "Dairy"
       (Some "2024-01-20") None None).

Lemma dairy_is_offered : In "Dairy" (InventoryPage.categories [rice; milk]).
Proof. vm_compute. auto. Qed.

Lemma offered_category_shows_items_witness :
  exists item, In item (InventoryPage.filteredInventory "" "Dairy" [rice; milk]).
Proof.
  apply (proj1 (offered_category_shows_items [rice; milk] "Dairy"
                  dairy_is_offered)).
Defined.

(** ** Adding, deleting and editing inventory items *)






(** X26.  Saving an edit, when the update resolves, keeps the identifiers, the
    number and the order of the items shown; the items with the selected
    identifier carry the edited fields, every other item is untouched; the
    stored document is merged with the edit: it carries the name, quantity,
    unit and category of the edit, and of the optional fields the edited
    value when the edit has one and the stored value otherwise; every other
    document is as it was; the dialog is closed. *)
Theorem edit_replaces_selected_item (edited old : InventoryPage.ItemData)
  (selected : InventoryPage.InventoryItem) (w : InventoryPage.World) :
  InventoryPage.selectedItem (InventoryPage.view w) = Some selected ->
  oracle (InventoryPage.net w) (clock (InventoryPage.net w)) <> Rejected ->
  lookupDoc (InventoryPage.inventoryDocs w) (InventoryPage.id selected)
    = Some old ->
  let w' := snd (InventoryPage.handleSaveEdit edited w) in
  let shown := InventoryPage.inventory (InventoryPage.view w) in
  let shown' := InventoryPage.inventory (InventoryPage.view w') in
  map InventoryPage.id shown' = map InventoryPage.id shown /\
  (forall k item, nth_error shown k = Some item ->
     nth_error shown' k =
       Some (if String.eqb (InventoryPage.id item) (InventoryPage.id selected)
             then InventoryPage.mkInventoryItem (InventoryPage.id selected) edited
             else item)) /\
  lookupDoc (InventoryPage.inventoryDocs w') (InventoryPage.id selected)
    = Some (InventoryPage.mkItemData
              (InventoryPage.name edited) (InventoryPage.quantity edited)
              (InventoryPage.unit_ edited) (InventoryPage.category edited)
              (match InventoryPage.expirationDate edited with
               | Some d => Some d
               | None => InventoryPage.expirationDate old
               end)
              (match InventoryPage.location edited with
               | Some l => Some l
               | None => InventoryPage.location old
               end)
              (match InventoryPage.notes edited with
               | Some n => Some n
               | None => InventoryPage.notes old
               end)) /\
  (forall k, k <> InventoryPage.id selected ->
     lookupDoc (InventoryPage.inventoryDocs w') k
       = lookupDoc (InventoryPage.inventoryDocs w) k) /\
  InventoryPage.selectedItem (InventoryPage.view w') = None /\
  InventoryPage.isEditModalOpen (InventoryPage.view w') = false.
Proof.
  intros Hsel Ho Eold w' shown shown'.
  destruct (oracle (InventoryPage.net w) (clock (InventoryPage.net w)))
    as [|a0] eqn:E0; [congruence|].
  set (swap := fun item : InventoryPage.InventoryItem =>
                 if String.eqb (InventoryPage.id item) (InventoryPage.id selected)
                 then InventoryPage.mkInventoryItem (InventoryPage.id selected) edited
                 else item).
  set (store := fun d : string * InventoryPage.ItemData =>
                  if String.eqb (fst d) (InventoryPage.id selected)
                  then (fst d, InventoryPage.mergeFields (snd d) edited)
                  else d).
  assert (Hw : w' =
    InventoryPage.mkWorld (map store (InventoryPage.inventoryDocs w))
      (tick (InventoryPage.net w)) (InventoryPage.consoleErrors w)
      (InventoryPage.mkView (map swap shown)
         (InventoryPage.isAddModalOpen (InventoryPage.view w)) false None)).
  { unfold w', InventoryPage.handleSaveEdit, bind at 1, InventoryPage.readView.
    cbn beta iota. rewrite Hsel.
    unfold tryCatch, bind, InventoryPage.updateDoc, bind, InventoryPage.request.
    rewrite E0. cbn. rewrite Eold. reflexivity. }
  unfold shown'. rewrite Hw.
  cbn [InventoryPage.inventory InventoryPage.view InventoryPage.inventoryDocs
       InventoryPage.selectedItem InventoryPage.isEditModalOpen].
  split; [|split; [|split; [|split; [|split; reflexivity]]]].
  - rewrite map_map. apply map_ext. intros item. unfold swap.
    destruct (String.eqb_spec (InventoryPage.id item) (InventoryPage.id selected));
      [now cbn | reflexivity].
  - intros k item Hk. rewrite nth_error_map, Hk. reflexivity.
  - change (lookupDoc (map store (InventoryPage.inventoryDocs w))
              (InventoryPage.id selected)
            = Some (InventoryPage.mergeFields old edited)).
    clear - Eold. revert Eold.
    induction (InventoryPage.inventoryDocs w) as [|[k d] docs IH]; cbn;
      [discriminate|].
    unfold store at 1. cbn [fst snd].
    destruct (String.eqb k (InventoryPage.id selected)) eqn:E; cbn [fst lookupDoc].
    + rewrite E. intros H. injection H as ->. reflexivity.
    + rewrite E. exact IH.
  - intros k Hk. clear - Hk.
    induction (InventoryPage.inventoryDocs w) as [|[k' d] docs IH]; cbn;
      [reflexivity|].
    unfold store at 1. cbn [fst snd].
    destruct (String.eqb_spec k' (InventoryPage.id selected)) as [->|Hne];
      cbn [fst lookupDoc].
    + destruct (String.eqb_spec (InventoryPage.id selected) k) as [Heq|_];
        [congruence | exact IH].
    + rewrite IH. reflexivity.
Qed.

Definition editingMilk : InventoryPage.World :=
  InventoryPage.mkWorld
    [("i1", InventoryPage.data rice); ("i2", InventoryPage.data milk)]
    (mkNet 0 (fun _ => Resolved "ok")) []
    (InventoryPage.mkView [rice; milk] false true (Some milk)).

(** The edit names a note and no expiration date: the stored document gets
    the note and keeps its date, while the item shown has no date. *)
Lemma edit_replaces_selected_item_witness :
  lookupDoc
    (InventoryPage.inventoryDocs
       (snd (InventoryPage.handleSaveEdit
               (InventoryPage.mkItemData "Oat milk" 1%float "l" "Dairy"
                  None None (Some "opened"))
               editingMilk))) "i2"
  = Some (InventoryPage.mkItemData "Oat milk" 1%float "l" "Dairy"
            (Some "2024-01-20") None (Some "opened")).
Proof.
  refine (proj1 (proj2 (proj2 (edit_replaces_selected_item
                   (InventoryPage.mkItemData "Oat milk" 1%float "l" "Dairy"
                      None None (Some "opened"))
                   (InventoryPage.data milk)
                   milk editingMilk eq_refl _ eq_refl)))); discriminate.
Defined.

(** ** Selecting the recipes of a menu *)

(** X27.  Clicking a recipe in the selection dialog flips whether its identifier
    is selected and leaves every other identifier as it was. *)
Theorem recipe_toggle_flips_selection (selected : list string)
  (recipe : Menu.Recipe) (x : string) :
  JSSet.has (RecipeSelectionModal.handleRecipeToggle selected recipe) x =
    if String.eqb x (Menu.id recipe)
    then negb (JSSet.has selected x)
    else JSSet.has selected x.
Proof.
  unfold RecipeSelectionModal.handleRecipeToggle.
  destruct (String.eqb_spec x (Menu.id recipe)) as [-> | Hne].
  - destruct (JSSet.has selected (Menu.id recipe)) eqn:E; cbn.
    + apply Bool.not_true_iff_false. rewrite has_In, In_delete. tauto.
    + apply has_In, In_add. now right.
  - destruct (JSSet.has selected (Menu.id recipe)) eqn:E.
    + destruct (JSSet.has selected x) eqn:Ex.
      * apply has_In, In_delete. split; [now apply has_In | exact Hne].
      * apply Bool.not_true_iff_false. rewrite has_In, In_delete, <- has_In.
        intros [H _]. congruence.
    + destruct (JSSet.has selected x) eqn:Ex.
      * apply has_In, In_add. left. now apply has_In.
      * apply Bool.not_true_iff_false. rewrite has_In, In_add, <- has_In.
        intros [H | H]; congruence.
Qed.

(** X28.  Opening the selection dialog on a menu and saving without a click hands
    back the recipes of the catalogue whose identifier is embedded in the
    menu, in the order of the catalogue: embedded copies are replaced by the
    catalogue's recipes and embedded recipes that are no longer in the
    catalogue are dropped. *)
Theorem reselect_takes_catalogue_recipes (available initial : list Menu.Recipe) :
  RecipeSelectionModal.handleSave available
    (RecipeSelectionModal.initialSelection initial)
  = filter (fun r => existsb (String.eqb (Menu.id r)) (map Menu.id initial))
           available /\
  forall r,
    In r (RecipeSelectionModal.handleSave available
            (RecipeSelectionModal.initialSelection initial)) <->
    In r available /\ exists r0, In r0 initial /\ Menu.id r0 = Menu.id r.
Proof.
  assert (Hhas : forall x,
            JSSet.has (RecipeSelectionModal.initialSelection initial) x
            = existsb (String.eqb x) (map Menu.id initial)).
  { intros x. unfold RecipeSelectionModal.initialSelection.
    destruct (ofArray_spec (map Menu.id initial)) as [_ Hin].
    apply Bool.eq_true_iff_eq. rewrite has_In, Hin.
    fold (JSSet.has (map Menu.id initial) x). now rewrite has_In. }
  unfold RecipeSelectionModal.handleSave. split.
  - apply filter_ext. intros r. apply Hhas.
  - intros r. rewrite filter_In, Hhas.
    fold (JSSet.has (map Menu.id initial) (Menu.id r)).
    rewrite has_In, in_map_iff.
    split; intros [H (r0 & A & B)]; (split; [exact H | exists r0; auto]).
Qed.

End PagesMore.

(* ================================================================== *)
(** * Recipe form: rows added, removed and edited by index *)
(* ================================================================== *)

Module RecipeFormMore.
Import RecipeForm.
Local Open Scope list_scope.

(** An array without holes. *)
Definition dense {A} (xs : JSArray A) : Prop :=
  Forall (fun s => s <> Hole) xs.

Lemma spread_dense {A} (xs : JSArray A) : dense xs -> spread xs = xs.
Proof.
  unfold dense, spread. induction 1 as [|s xs Hs _ IH]; cbn; [reflexivity|].
  rewrite IH. destruct s; [congruence | reflexivity].
Qed.

Lemma filterOthers_before {A} (xs : JSArray A) :
  forall i index,
    dense xs -> i + List.length xs <= index -> filterOthers xs i index = xs.
Proof.
  induction xs as [|s xs IH]; intros i index Hd Hle; cbn; [reflexivity|].
  inversion Hd as [|? ? Hs Hd']; subst. cbn in Hle.
  destruct s as [|a]; [congruence|].
  destruct (Nat.eqb_spec i index); [lia|].
  rewrite IH; [reflexivity | exact Hd' | lia].
Qed.

Lemma filterOthers_last {A} (xs : JSArray A) (a : option A) :
  forall i,
    dense xs ->
    filterOthers (xs ++ [Elem a]) i (i + List.length xs) = xs.
Proof.
  induction xs as [|s xs IH]; intros i Hd; cbn.
  - now rewrite Nat.add_0_r, Nat.eqb_refl.
  - inversion Hd as [|? ? Hs Hd']; subst.
    destruct s as [|b]; [congruence|].
    destruct (Nat.eqb_spec i (i + S (List.length xs))); [lia|].
    replace (i + S (List.length xs)) with (S i + List.length xs) by lia.
    now rewrite IH.
Qed.

(** X29.  Adding a row and removing the row just added gives back the form as it
    was, for instructions and for ingredients, when the array is defined
    and has no holes. *)
Theorem remove_added_row_restores (formData : FormData)
  (steps : JSArray string) (rows : JSArray Row) :
  instructions formData = Some steps -> dense steps ->
  ingredients formData = Some rows -> dense rows ->
  removeInstruction (addInstruction formData) (List.length steps) = formData /\
  removeIngredient (addIngredient formData) (List.length rows) = formData.
Proof.
  intros Hs Hds Hr Hdr.
  unfold removeInstruction, addInstruction, removeIngredient, addIngredient.
  cbn [instructions ingredients]. rewrite Hs, Hr. cbn [orEmpty].
  rewrite (spread_dense steps Hds), (spread_dense rows Hdr).
  pose proof (filterOthers_last steps (Some "") 0 Hds) as E1.
  pose proof (filterOthers_last rows
                (Some (mkRow (Some "") (Some 1%float) (Some "cups"))) 0 Hdr)
    as E2.
  cbn [Nat.add] in E1, E2. rewrite E1, E2.
  destruct formData as [i s]. cbn in *. subst. split; reflexivity.
Qed.

Definition twoSteps : FormData :=
  mkFormData (Some [Elem (Some (mkRow (Some "Flour") (Some 2%float) (Some "cups")))])
             (Some [Elem (Some "Mix"); Elem (Some "Bake")]).

Lemma remove_added_row_restores_witness :
  removeInstruction (addInstruction twoSteps) 2 = twoSteps /\
  removeIngredient (addIngredient twoSteps) 1 = twoSteps.
Proof.
  apply (remove_added_row_restores twoSteps
           [Elem (Some "Mix"); Elem (Some "Bake")]
           [Elem (Some (mkRow (Some "Flour") (Some 2%float) (Some "cups")))]).
  - reflexivity.
  - repeat constructor; discriminate.
  - reflexivity.
  - repeat constructor; discriminate.
Defined.

Lemma assign_length {A} (xs : JSArray A) (v : A) :
  forall index,
    List.length (assign xs index v) = Nat.max (List.length xs) (S index).
Proof.
  induction xs as [|x xs IH]; intros index.
  - induction index as [|n IHn]; cbn [assign List.length] in *; lia.
  - destruct index as [|n]; cbn [assign List.length]; [lia|].
    rewrite IH. lia.
Qed.

Lemma assign_at {A} (xs : JSArray A) (v : A) :
  forall index, nth_error (assign xs index v) index = Some (Elem (Some v)).
Proof.
  induction xs as [|x xs IH]; intros index.
  - induction index as [|n IHn]; cbn; [reflexivity | exact IHn].
  - destruct index as [|n]; cbn; [reflexivity | apply IH].
Qed.

Lemma assign_inside {A} (xs : JSArray A) (v : A) :
  forall index k,
    k <> index -> (k < List.length xs)%nat ->
    nth_error (assign xs index v) k = nth_error xs k.
Proof.
  induction xs as [|x xs IH]; intros index k Hne Hk; cbn in Hk; [lia|].
  destruct index as [|n], k as [|k]; cbn [assign nth_error];
    try congruence; try reflexivity.
  apply IH; [congruence | lia].
Qed.

Lemma assign_gap_nil {A} (v : A) :
  forall index k,
    (k < index)%nat -> nth_error (assign (@nil (Slot A)) index v) k = Some Hole.
Proof.
  induction index as [|n IH]; intros k Hk; [lia|].
  destruct k as [|k]; cbn [assign nth_error]; [reflexivity|].
  apply IH. lia.
Qed.

Lemma assign_gap {A} (xs : JSArray A) (v : A) :
  forall index k,
    (List.length xs <= k)%nat -> (k < index)%nat ->
    nth_error (assign xs index v) k = Some Hole.
Proof.
  induction xs as [|x xs IH]; intros index k Hle Hlt.
  - now apply assign_gap_nil.
  - cbn in Hle. destruct index as [|n]; [lia|]. destruct k as [|k]; [lia|].
    cbn [assign nth_error]. apply IH; lia.
Qed.

(** X30.  Editing instruction row [index] of a defined array without holes: the
    row holds the new text; inside the array every other row is untouched
    and the number of rows is unchanged; an index past the end extends the
    array to [index + 1] rows, the rows in between being holes. *)
Theorem instruction_change_by_index (formData : FormData)
  (steps : JSArray string) (index : nat) (value : string) :
  instructions formData = Some steps -> dense steps ->
  exists steps',
    handleInstructionChange formData index value
      = mkFormData (ingredients formData) (Some steps') /\
    at_ steps' index = Some value /\
    List.length steps' = Nat.max (List.length steps) (S index) /\
    (forall k, k <> index -> (k < List.length steps)%nat ->
               nth_error steps' k = nth_error steps k) /\
    (forall k, (List.length steps <= k)%nat -> (k < index)%nat ->
               nth_error steps' k = Some Hole).
Proof.
  intros Hs Hd. exists (assign steps index value).
  unfold handleInstructionChange. rewrite Hs. cbn [orEmpty].
  rewrite (spread_dense steps Hd).
  split; [reflexivity|]. split; [|split; [|split]].
  - unfold at_. now rewrite assign_at.
  - apply assign_length.
  - intros k Hne Hk. now apply assign_inside.
  - intros k Hk Hlt. now apply assign_gap.
Qed.

Lemma instruction_change_by_index_witness :
  exists steps',
    handleInstructionChange twoSteps 1 "Bake for 20 minutes"
      = mkFormData (ingredients twoSteps) (Some steps') /\
    at_ steps' 1 = Some "Bake for 20 minutes" /\
    List.length steps' = Nat.max 2 2 /\
    (forall k, k <> 1 -> (k < 2)%nat ->
               nth_error steps' k
               = nth_error [Elem (Some "Mix"); Elem (Some "Bake")] k) /\
    (forall k, (2 <= k)%nat -> (k < 1)%nat -> nth_error steps' k = Some Hole).
Proof.
  apply (instruction_change_by_index twoSteps
           [Elem (Some "Mix"); Elem (Some "Bake")] 1 "Bake for 20 minutes").
  - reflexivity.
  - repeat constructor; discriminate.
Defined.

End RecipeFormMore.
